(** * TermTaskspacePose: a cost term on a task-space pose

    A shallow embedding of
    [ct_rbd/include/ct/rbd/robot/costfunction/TermTaskspacePose.hpp]
    and the properties of its cost formula, constructors, configuration
    loader, state extraction and clone.

    Conventions of the embedding.
    - [double] is embedded as the real numbers [R]: the development is
      about the formula the code computes, in exact arithmetic; rounding,
      overflow and NaN are outside of it.
    - The template parameter [SC] of [evalLocal] is a type of the class
      [Scalar], which lists the operations the formula uses.
    - [ct::core::ADCGScalar], the differentiable scalar the entry points are
      declared on, is a parameter [ADCG] of the class [Scalar]. The
      properties of the values are stated at [R], the value an [ADCGScalar]
      carries; [evalLocal_natural] carries them over to any other carrier
      through a map that preserves the operations.
    - Eigen's fixed-size vectors and matrices are records of coefficients,
      Eigen's operations are written out coefficient by coefficient.
    - The kinematics and the reader of the configuration are parameters.
    - The members of the base class [TermBase] (the term's name and its time
      activation) are declared outside of this header and are left out. *)

From Stdlib Require Import Reals Lra Psatz RNsatz List String Bool Arith Lia.
Import ListNotations.

Local Open Scope R_scope.

(** ** Scalars *)

(** The operations [evalLocal<SC>] asks of its scalar type: [+], [-], [*],
    the square root behind [norm()], and the conversion from [double] behind
    [cast<SC>()], [(SC)Q_rot_] and the coefficients of [Identity()]. *)
Class Scalar (SC : Type) : Type := {
  sc_add : SC -> SC -> SC;
  sc_sub : SC -> SC -> SC;
  sc_mul : SC -> SC -> SC;
  sc_sqrt : SC -> SC;
  sc_cast : R -> SC
}.

Declare Scope sc_scope.
Delimit Scope sc_scope with sc.
Infix "+" := sc_add : sc_scope.
Infix "-" := sc_sub : sc_scope.
Infix "*" := sc_mul : sc_scope.

(** [double]. *)
#[export] Instance double_Scalar : Scalar R := {
  sc_add := Rplus;
  sc_sub := Rminus;
  sc_mul := Rmult;
  sc_sqrt := sqrt;
  sc_cast := fun d => d
}.

(** A map between two scalar types that commutes with every operation of
    the class, as the value carried by a differentiable scalar does. *)
Record ScalarMorphism {A B : Type} {scA : Scalar A} {scB : Scalar B} (h : A -> B) : Prop := {
  morph_add : forall a b, h (sc_add a b) = sc_add (h a) (h b);
  morph_sub : forall a b, h (sc_sub a b) = sc_sub (h a) (h b);
  morph_mul : forall a b, h (sc_mul a b) = sc_mul (h a) (h b);
  morph_sqrt : forall a, h (sc_sqrt a) = sc_sqrt (h a);
  morph_cast : forall d, h (sc_cast d) = sc_cast d
}.

(** ** Eigen: fixed-size vectors, matrices and quaternions *)

Module Eigen.

Section Dense.
Context {SC : Type} {sc : Scalar SC}.
Local Open Scope sc_scope.

(** [Eigen::Matrix<SC, 3, 1>] *)
Record Vector3 : Type := mkVector3 { v0 : SC; v1 : SC; v2 : SC }.

(** [Eigen::Matrix<SC, 1, 3>], the type of [xDiff.transpose()] *)
Record RowVector3 : Type := mkRowVector3 { r0 : SC; r1 : SC; r2 : SC }.

(** [Eigen::Matrix<SC, 3, 3>], coefficient [mIJ] is [(I, J)] *)
Record Matrix3 : Type := mkMatrix3 {
  m00 : SC; m01 : SC; m02 : SC;
  m10 : SC; m11 : SC; m12 : SC;
  m20 : SC; m21 : SC; m22 : SC
}.

Definition vsub (a b : Vector3) : Vector3 :=
  mkVector3 (v0 a - v0 b) (v1 a - v1 b) (v2 a - v2 b).

Definition vtranspose (a : Vector3) : RowVector3 :=
  mkRowVector3 (v0 a) (v1 a) (v2 a).

(** row vector times matrix *)
Definition rmul (r : RowVector3) (m : Matrix3) : RowVector3 :=
  mkRowVector3
    (r0 r * m00 m + r1 r * m10 m + r2 r * m20 m)
    (r0 r * m01 m + r1 r * m11 m + r2 r * m21 m)
    (r0 r * m02 m + r1 r * m12 m + r2 r * m22 m).

(** row vector times column vector: the coefficient [(0, 0)] of the
    1x1 product *)
Definition rdot (r : RowVector3) (a : Vector3) : SC :=
  r0 r * v0 a + r1 r * v1 a + r2 r * v2 a.

Definition transpose (m : Matrix3) : Matrix3 :=
  mkMatrix3 (m00 m) (m10 m) (m20 m)
            (m01 m) (m11 m) (m21 m)
            (m02 m) (m12 m) (m22 m).

Definition mmul (a b : Matrix3) : Matrix3 :=
  mkMatrix3
    (m00 a * m00 b + m01 a * m10 b + m02 a * m20 b)
    (m00 a * m01 b + m01 a * m11 b + m02 a * m21 b)
    (m00 a * m02 b + m01 a * m12 b + m02 a * m22 b)
    (m10 a * m00 b + m11 a * m10 b + m12 a * m20 b)
    (m10 a * m01 b + m11 a * m11 b + m12 a * m21 b)
    (m10 a * m02 b + m11 a * m12 b + m12 a * m22 b)
    (m20 a * m00 b + m21 a * m10 b + m22 a * m20 b)
    (m20 a * m01 b + m21 a * m11 b + m22 a * m21 b)
    (m20 a * m02 b + m21 a * m12 b + m22 a * m22 b).

Definition msub (a b : Matrix3) : Matrix3 :=
  mkMatrix3
    (m00 a - m00 b) (m01 a - m01 b) (m02 a - m02 b)
    (m10 a - m10 b) (m11 a - m11 b) (m12 a - m12 b)
    (m20 a - m20 b) (m21 a - m21 b) (m22 a - m22 b).

(** [Matrix3::Identity()] *)
Definition Identity : Matrix3 :=
  mkMatrix3 (sc_cast 1) (sc_cast 0) (sc_cast 0)
            (sc_cast 0) (sc_cast 1) (sc_cast 0)
            (sc_cast 0) (sc_cast 0) (sc_cast 1).

(** [squaredNorm()]: the sum of the squares of the coefficients, taken
    column by column as Eigen stores them *)
Definition squaredNorm (m : Matrix3) : SC :=
  m00 m * m00 m + m10 m * m10 m + m20 m * m20 m
  + m01 m * m01 m + m11 m * m11 m + m21 m * m21 m
  + m02 m * m02 m + m12 m * m12 m + m22 m * m22 m.

(** [norm()]: the Frobenius norm, the square root of [squaredNorm()] *)
Definition norm (m : Matrix3) : SC := sc_sqrt (squaredNorm m).
End Dense.

Arguments Vector3 SC : clear implicits.
Arguments RowVector3 SC : clear implicits.
Arguments Matrix3 SC : clear implicits.

(** [m.template cast<SC>()] on a matrix and on a vector of [double] *)
Definition mcast {SC : Type} {sc : Scalar SC} (m : Matrix3 R) : Matrix3 SC :=
  mkMatrix3 (sc_cast (m00 m)) (sc_cast (m01 m)) (sc_cast (m02 m))
            (sc_cast (m10 m)) (sc_cast (m11 m)) (sc_cast (m12 m))
            (sc_cast (m20 m)) (sc_cast (m21 m)) (sc_cast (m22 m)).

Definition vcast {SC : Type} {sc : Scalar SC} (a : Vector3 R) : Vector3 SC :=
  mkVector3 (sc_cast (v0 a)) (sc_cast (v1 a)) (sc_cast (v2 a)).

(** Coefficient-wise image of a vector and of a matrix. *)
Definition vmap {A B : Type} (h : A -> B) (a : Vector3 A) : Vector3 B :=
  mkVector3 (h (v0 a)) (h (v1 a)) (h (v2 a)).

Definition mmap {A B : Type} (h : A -> B) (m : Matrix3 A) : Matrix3 B :=
  mkMatrix3 (h (m00 m)) (h (m01 m)) (h (m02 m))
            (h (m10 m)) (h (m11 m)) (h (m12 m))
            (h (m20 m)) (h (m21 m)) (h (m22 m)).

(** [Eigen::Matrix<double, 4, 1>] *)
Record Vector4 : Type := mkVector4 { c0 : R; c1 : R; c2 : R; c3 : R }.

(** [Eigen::Quaternion<double>], constructed as [Quaternion(w, x, y, z)] *)
Record Quaternion : Type := mkQuaternion { qw : R; qx : R; qy : R; qz : R }.

Definition qsquaredNorm (q : Quaternion) : R :=
  qw q * qw q + qx q * qx q + qy q * qy q + qz q * qz q.

(** [q.normalized()]: the quotient of the quaternion by its norm; a
    quaternion of norm zero is returned as it is. *)
Definition normalized (q : Quaternion) : Quaternion :=
  let z := qsquaredNorm q in
  if Rlt_dec 0 z
  then mkQuaternion (qw q / sqrt z) (qx q / sqrt z) (qy q / sqrt z) (qz q / sqrt z)
  else q.

(** [q.toRotationMatrix()], with Eigen's intermediate products; the
    quaternion is used as it is, the result is a rotation only when it
    has norm one. *)
Definition toRotationMatrix (q : Quaternion) : Matrix3 R :=
  let tx := 2 * qx q in
  let ty := 2 * qy q in
  let tz := 2 * qz q in
  let twx := tx * qw q in
  let twy := ty * qw q in
  let twz := tz * qw q in
  let txx := tx * qx q in
  let txy := ty * qx q in
  let txz := tz * qx q in
  let tyy := ty * qy q in
  let tyz := tz * qy q in
  let tzz := tz * qz q in
  mkMatrix3
    (1 - (tyy + tzz)) (txy - twz) (txz + twy)
    (txy + twz) (1 - (txx + tzz)) (tyz - twx)
    (txz - twy) (tyz + twx) (1 - (txx + tyy)).

(** quaternion product [a * b] *)
Definition qmul (a b : Quaternion) : Quaternion :=
  mkQuaternion
    (qw a * qw b - qx a * qx b - qy a * qy b - qz a * qz b)
    (qw a * qx b + qx a * qw b + qy a * qz b - qz a * qy b)
    (qw a * qy b + qy a * qw b + qz a * qx b - qx a * qz b)
    (qw a * qz b + qz a * qw b + qx a * qy b - qy a * qx b).

(** [Eigen::AngleAxisd(angle, axis)] *)
Record AngleAxis : Type := mkAngleAxis { angle : R; axis : Vector3 R }.

Definition UnitX : Vector3 R := mkVector3 1 0 0.
Definition UnitY : Vector3 R := mkVector3 0 1 0.
Definition UnitZ : Vector3 R := mkVector3 0 0 1.

(** [Quaternion(const AngleAxis&)]: [w = cos(angle/2)],
    [vec = sin(angle/2) * axis] *)
Definition Quaternion_of_AngleAxis (aa : AngleAxis) : Quaternion :=
  let ha := 0.5 * angle aa in
  mkQuaternion (cos ha)
               (sin ha * v0 (axis aa))
               (sin ha * v1 (axis aa))
               (sin ha * v2 (axis aa)).

(** [AngleAxis * AngleAxis]: the product of the two as quaternions *)
Definition aamul (a b : AngleAxis) : Quaternion :=
  qmul (Quaternion_of_AngleAxis a) (Quaternion_of_AngleAxis b).

(** [Quaternion * AngleAxis] *)
Definition qaamul (a : Quaternion) (b : AngleAxis) : Quaternion :=
  qmul a (Quaternion_of_AngleAxis b).

End Eigen.
Import Eigen.

(** ** Robot state *)

(** [Eigen::Matrix<SC, STATE_DIM, 1>] and [Eigen::Matrix<SC, CONTROL_DIM, 1>]:
    the coefficients in order. *)
Definition StateVector (SC : Type) : Type := list SC.
Definition ControlVector (SC : Type) : Type := list SC.

(** [x.segment<n>(start)] *)
Definition segment {SC : Type} (start n : nat) (x : list SC) : list SC :=
  firstn n (skipn start x).

(** [x.tail<n>()] *)
Definition tail_n {SC : Type} (n : nat) (x : list SC) : list SC :=
  skipn (List.length x - n) x.

Section RBDState.
Context {SC : Type} {sc : Scalar SC}.

(** Modelled from the spec: [tpl::RigidBodyPose] of ct/rbd/state, which is
    not part of this header. A base pose in Euler-XYZ encoding: three
    angles and a position; the default-constructed pose is the identity. *)
Record RigidBodyPose : Type := mkRigidBodyPose {
  pose_eulerXyz : Vector3 SC;
  pose_position : Vector3 SC
}.

Definition RigidBodyPose_identity : RigidBodyPose :=
  mkRigidBodyPose
    (mkVector3 (sc_cast 0) (sc_cast 0) (sc_cast 0))
    (mkVector3 (sc_cast 0) (sc_cast 0) (sc_cast 0)).

(** Modelled from the spec: [tpl::RBDState<NJOINTS, SC>] of
    ct/rbd/state/RBDState.h, which is not part of this header. The state
    holds the base pose, the base velocities and the joint state; the joint
    state lists the joint positions, then the joint velocities (section 3
    of the spec: [jointPositions ++ jointVelocities]). *)
Record RBDState : Type := mkRBDState {
  basePose : RigidBodyPose;
  baseVelocities : list SC;
  joints : list SC
}.

(** the default-constructed [RBDState] *)
Definition RBDState_default (njoints : nat) : RBDState :=
  mkRBDState RigidBodyPose_identity
             (repeat (sc_cast 0) 6)
             (repeat (sc_cast 0) (2 * njoints)).

(** [rbdState.jointPositions()]: the first [njoints] entries of the joint
    state *)
Definition jointPositions (njoints : nat) (s : RBDState) : list SC :=
  firstn njoints (joints s).

(** [rbdState.joints() = x] *)
Definition set_joints (x : list SC) (s : RBDState) : RBDState :=
  mkRBDState (basePose s) (baseVelocities s) x.

Definition coeff (x : list SC) (i : nat) : SC := nth i x (sc_cast 0).

(** Modelled from the spec: the base pose six entries encode, three
    Euler-XYZ angles and a position. *)
Definition RigidBodyPose_fromEulerXyz (six : list SC) : RigidBodyPose :=
  mkRigidBodyPose
    (mkVector3 (coeff six 0) (coeff six 1) (coeff six 2))
    (mkVector3 (coeff six 3) (coeff six 4) (coeff six 5)).

(** Modelled from the spec: [RBDState::fromStateVectorEulerXyz]. The
    leading six entries are the base pose in Euler-XYZ encoding, the next
    [njoints] entries are the joint positions; then come the six base
    velocities and the [njoints] joint velocities. *)
Definition fromStateVectorEulerXyz (njoints : nat) (x : list SC)
    (s : RBDState) : RBDState :=
  mkRBDState
    (RigidBodyPose_fromEulerXyz (firstn 6 x))
    (segment (6 + njoints) 6 x)
    (segment 6 njoints x ++ tail_n njoints x).
End RBDState.

Arguments RigidBodyPose SC : clear implicits.
Arguments RBDState SC : clear implicits.

(** ** The kinematics provider *)

(** The template parameter [KINEMATICS]: a class with a default constructor
    and the static constant [NJOINTS]. *)
Class KinematicsClass (K : Type) : Type := {
  NJOINTS : nat;
  KINEMATICS : K
}.

(** The two queries [evalLocal] makes to its kinematics, in the scalar type
    [SC]. The provider is stateless: an answer depends on the arguments only. *)
Class KinematicsOps (SC : Type) (K : Type) : Type := {
  getEEPositionInWorld : K -> nat -> RigidBodyPose SC -> list SC -> Vector3 SC;
  getEERotInWorld : K -> nat -> RigidBodyPose SC -> list SC -> Matrix3 SC
}.

(** ** The term *)

(** The data members of [TermTaskspacePose]. *)
Record TermTaskspacePose (K : Type) : Type := mkTerm {
  eeInd_ : nat;
  kinematics_ : K;
  Q_pos_ : Matrix3 R;
  Q_rot_ : R;
  w_p_ref_ : Vector3 R;
  w_R_ref_ : Matrix3 R
}.

Arguments mkTerm {K}.
Arguments eeInd_ {K}.
Arguments kinematics_ {K}.
Arguments Q_pos_ {K}.
Arguments Q_rot_ {K}.
Arguments w_p_ref_ {K}.
Arguments w_R_ref_ {K}.

(** The scalar types the header names. *)
Inductive scalar_type : Type :=
| type_double
| type_ADCGScalar.

(** [using SCALAR = ct::core::ADCGScalar;] *)
Definition SCALAR : scalar_type := type_ADCGScalar.

(** The two evaluation entry points the class overrides. *)
Inductive entry_point : Type :=
| entry_evaluate
| entry_evaluateCppadCg.

(** The scalar type of the signature of each entry point: [evaluate] is
    declared on [SCALAR], [evaluateCppadCg] on [ct::core::ADCGScalar]. *)
Definition entry_scalar (e : entry_point) : scalar_type :=
  match e with
  | entry_evaluate => SCALAR
  | entry_evaluateCppadCg => type_ADCGScalar
  end.

Section Term.
(** The template parameters [KINEMATICS], [FB], [STATE_DIM], [CONTROL_DIM]. *)
Context {K : Type} {kc : KinematicsClass K}.
Variable FB : bool.
Variables STATE_DIM CONTROL_DIM : nat.

(** The condition of the [static_assert] of the quaternion constructor;
    an instantiation of the template that breaks it does not compile. *)
Definition STATE_DIM_appropriate : bool :=
  let fb := if FB then 1%nat else 0%nat in
  (STATE_DIM =? 2 * (fb * 6 + NJOINTS))%nat
  || (STATE_DIM =? 2 * (fb * 6 + NJOINTS) + 1)%nat.

(** *** Constructors *)

(** [TermTaskspacePose() {}]: no member is given a value, every one
    keeps what the storage held; [kinematics_] is default-constructed. *)
Definition ctor_default (storage : TermTaskspacePose K) : TermTaskspacePose K :=
  mkTerm (eeInd_ storage) KINEMATICS (Q_pos_ storage) (Q_rot_ storage)
         (w_p_ref_ storage) (w_R_ref_ storage).

(** constructor using a quaternion for orientation *)
Definition ctor_quat (eeInd : nat) (Qpos : Matrix3 R) (Qrot : R)
    (w_pos_des : Vector3 R) (w_q_des : Quaternion) : TermTaskspacePose K :=
  mkTerm eeInd KINEMATICS Qpos Qrot w_pos_des
         (toRotationMatrix (normalized w_q_des)).

(** The quaternion the Euler constructor and the loader build from three
    angles: [AngleAxisd(e(0), UnitX) * AngleAxisd(e(1), UnitY) *
    AngleAxisd(e(2), UnitZ)]. *)
Definition quat_of_eulerXyz (eulerXyz : Vector3 R) : Quaternion :=
  qaamul (aamul (mkAngleAxis (v0 eulerXyz) UnitX)
                (mkAngleAxis (v1 eulerXyz) UnitY))
         (mkAngleAxis (v2 eulerXyz) UnitZ).

(** constructor using euler angles for orientation: delegates to the
    quaternion constructor *)
Definition ctor_euler (eeInd : nat) (Qpos : Matrix3 R) (Qrot : R)
    (w_pos_des : Vector3 R) (eulerXyz : Vector3 R) : TermTaskspacePose K :=
  ctor_quat eeInd Qpos Qrot w_pos_des (quat_of_eulerXyz eulerXyz).

(** copy constructor: five members copied, [kinematics_] constructed anew *)
Definition ctor_copy (arg : TermTaskspacePose K) : TermTaskspacePose K :=
  mkTerm (eeInd_ arg) KINEMATICS (Q_pos_ arg) (Q_rot_ arg)
         (w_p_ref_ arg) (w_R_ref_ arg).

(** deep cloning: a new term, copy-constructed from this one *)
Definition clone (this : TermTaskspacePose K) : TermTaskspacePose K :=
  ctor_copy this.

(** *** Evaluation *)

Section EvalLocal.
Context {SC : Type} {sc : Scalar SC} {ko : KinematicsOps SC K}.
Local Open Scope sc_scope.

(** [setStateFromVector<T>]: the overload for a floating-base robot
    and the overload for a fixed-base robot, chosen by [T]. The header
    declares both on [SCALAR], so that [evalLocal<SC>] is well typed at
    [SC = SCALAR]; [SC] stands for the carrier of that type. *)
Definition setStateFromVector (T : bool) (x : StateVector SC) : RBDState SC :=
  if T
  then fromStateVectorEulerXyz NJOINTS x (RBDState_default NJOINTS)
  else set_joints x (RBDState_default NJOINTS).

(** a templated evaluate() method *)
Definition evalLocal (this : TermTaskspacePose K)
    (x : StateVector SC) (u : ControlVector SC) (t : SC) : SC :=
  let rbdState := setStateFromVector FB x in
  let xDiff :=
    vsub (getEEPositionInWorld (kinematics_ this) (eeInd_ this)
            (basePose rbdState) (jointPositions NJOINTS rbdState))
         (vcast (w_p_ref_ this)) in
  let pos_cost :=
    rdot (rmul (vtranspose xDiff) (mcast (Q_pos_ this))) xDiff in
  let ee_rot :=
    getEERotInWorld (kinematics_ this) (eeInd_ this)
      (basePose rbdState) (jointPositions NJOINTS rbdState) in
  let ee_rot_diff := mmul (transpose (mcast (w_R_ref_ this))) ee_rot in
  let rot_cost :=
    sc_cast (Q_rot_ this) * norm (msub ee_rot_diff Identity) in
  pos_cost + rot_cost.

(** The local variables of [evalLocal], as functions of the term and
    of the state vector. *)
Definition ee_pos (this : TermTaskspacePose K) (x : StateVector SC) : Vector3 SC :=
  let rbdState := setStateFromVector FB x in
  getEEPositionInWorld (kinematics_ this) (eeInd_ this)
    (basePose rbdState) (jointPositions NJOINTS rbdState).

Definition xDiff (this : TermTaskspacePose K) (x : StateVector SC) : Vector3 SC :=
  vsub (ee_pos this x) (vcast (w_p_ref_ this)).

Definition pos_cost (this : TermTaskspacePose K) (x : StateVector SC) : SC :=
  rdot (rmul (vtranspose (xDiff this x)) (mcast (Q_pos_ this))) (xDiff this x).

Definition ee_rot (this : TermTaskspacePose K) (x : StateVector SC) : Matrix3 SC :=
  let rbdState := setStateFromVector FB x in
  getEERotInWorld (kinematics_ this) (eeInd_ this)
    (basePose rbdState) (jointPositions NJOINTS rbdState).

Definition ee_rot_diff (this : TermTaskspacePose K) (x : StateVector SC) : Matrix3 SC :=
  mmul (transpose (mcast (w_R_ref_ this))) (ee_rot this x).

Definition rot_cost (this : TermTaskspacePose K) (x : StateVector SC) : SC :=
  sc_cast (Q_rot_ this) * norm (msub (ee_rot_diff this x) Identity).
End EvalLocal.

Section EntryPoints.
(** The carrier of [ct::core::ADCGScalar] and the kinematics on it. *)
Context {ADCG : Type} {sc : Scalar ADCG} {ko : KinematicsOps ADCG K}.

Definition carrier (s : scalar_type) : Type :=
  match s with
  | type_double => R
  | type_ADCGScalar => ADCG
  end.

(** evaluate *)
Definition evaluate (this : TermTaskspacePose K)
    (x : StateVector (carrier SCALAR)) (u : ControlVector (carrier SCALAR))
    (t : carrier SCALAR) : carrier SCALAR :=
  evalLocal (SC := ADCG) this x u t.

(** we overload the evaluateCppadCg method *)
Definition evaluateCppadCg (this : TermTaskspacePose K)
    (x : StateVector (carrier type_ADCGScalar))
    (u : ControlVector (carrier type_ADCGScalar))
    (t : carrier type_ADCGScalar) : carrier type_ADCGScalar :=
  evalLocal (SC := ADCG) this x u t.

(** The entry point [e], on the scalar type of its signature. *)
Definition call_entry (e : entry_point) (this : TermTaskspacePose K) :
    StateVector (carrier (entry_scalar e)) ->
    ControlVector (carrier (entry_scalar e)) ->
    carrier (entry_scalar e) -> carrier (entry_scalar e) :=
  match e with
  | entry_evaluate => evaluate this
  | entry_evaluateCppadCg => evaluateCppadCg this
  end.
End EntryPoints.
End Term.

(** ** Loading from a configuration file *)

(** [std::exception], with its message. *)
Record exception : Type := std_exception { what : string }.

(** [std::runtime_error(msg)] *)
Definition runtime_error (msg : string) : exception := std_exception msg.

(** The error of a configuration that names no desired orientation. *)
Definition MissingOrientation : exception :=
  runtime_error
    "Failed to load TermTaskspacePose, could not find a desired end effector orientation in file.".

(** Modelled from the spec: the reader of the structured configuration,
    [ct::optcon::loadScalarCF] and [ct::optcon::loadMatrixCF] of
    ct/optcon/costfunction/utility/utilities.hpp, which is not part of the
    sources. A read is keyed by the file, the name of the field and the name
    of the term; each read may fail, and a read that fails stores nothing.
    One function per instantiation the loader uses. *)
Class ConfigReader : Type := {
  loadScalarCF_size_t : string -> string -> string -> exception + nat;
  loadScalarCF_double : string -> string -> string -> exception + R;
  loadMatrixCF_3_3 : string -> string -> string -> exception + Matrix3 R;
  loadMatrixCF_3_1 : string -> string -> string -> exception + Vector3 R;
  loadMatrixCF_4_1 : string -> string -> string -> exception + Vector4
}.

(** What a statement sends to [std::cout]. *)
Inductive cout_item : Type :=
| out_text (s : string)
| out_size_t (n : nat)
| out_double (d : R)
| out_row (v : RowVector3 R)
| out_matrix (m : Matrix3 R).

Definition newline : string := String (Ascii.ascii_of_nat 10) EmptyString.

Section Loader.
Context {K : Type} {kc : KinematicsClass K} {reader : ConfigReader}.
Local Open Scope string_scope.

(** The state a member function runs in: the members of the object and
    what was written to [std::cout] so far, one entry per statement. *)
Record machine : Type := mkMachine {
  this_ : TermTaskspacePose K;
  cout : list (list cout_item)
}.

(** A statement changes the state and either completes with a value or
    throws; what it did before throwing stays done. *)
Definition stmt (A : Type) : Type := machine -> machine * (exception + A).

Definition ret {A : Type} (a : A) : stmt A := fun s => (s, inr a).

Definition bind {A B : Type} (c : stmt A) (k : A -> stmt B) : stmt B :=
  fun s =>
    match c s with
    | (s', inr a) => k a s'
    | (s', inl e) => (s', inl e)
    end.

Definition throw {A : Type} (e : exception) : stmt A := fun s => (s, inl e).

(** [try { body } catch (const std::exception& e) { handler }] *)
Definition try_catch {A : Type} (body : stmt A) (handler : exception -> stmt A)
    : stmt A :=
  fun s =>
    match body s with
    | (s', inr a) => (s', inr a)
    | (s', inl e) => handler e s'
    end.

(** a call to the reader, whose exception propagates *)
Definition call {A : Type} (r : exception + A) : stmt A := fun s => (s, r).

(** [std::cout << ... << std::endl;] *)
Definition print (line : list cout_item) : stmt unit :=
  fun s => (mkMachine (this_ s) (cout s ++ [line]), inr tt).

Definition when (b : bool) (c : stmt unit) : stmt unit :=
  if b then c else ret tt.

(** assignment to a member *)
Definition modify (f : TermTaskspacePose K -> TermTaskspacePose K) : stmt unit :=
  fun s => (mkMachine (f (this_ s)) (cout s), inr tt).

(** reading the members *)
Definition members : stmt (TermTaskspacePose K) := fun s => (s, inr (this_ s)).

Definition set_eeInd (v : nat) (t : TermTaskspacePose K) :=
  mkTerm v (kinematics_ t) (Q_pos_ t) (Q_rot_ t) (w_p_ref_ t) (w_R_ref_ t).
Definition set_Q_rot (v : R) (t : TermTaskspacePose K) :=
  mkTerm (eeInd_ t) (kinematics_ t) (Q_pos_ t) v (w_p_ref_ t) (w_R_ref_ t).
Definition set_Q_pos (v : Matrix3 R) (t : TermTaskspacePose K) :=
  mkTerm (eeInd_ t) (kinematics_ t) v (Q_rot_ t) (w_p_ref_ t) (w_R_ref_ t).
Definition set_w_p_ref (v : Vector3 R) (t : TermTaskspacePose K) :=
  mkTerm (eeInd_ t) (kinematics_ t) (Q_pos_ t) (Q_rot_ t) v (w_R_ref_ t).
Definition set_w_R_ref (v : Matrix3 R) (t : TermTaskspacePose K) :=
  mkTerm (eeInd_ t) (kinematics_ t) (Q_pos_ t) (Q_rot_ t) (w_p_ref_ t) v.

Notation "x <- c ;; k" := (bind c (fun x => k))
  (at level 61, c at next level, right associativity).
Notation "c ;; k" := (bind c (fun _ => k))
  (at level 61, right associativity).

(** load term information from configuration file (stores data in member
    variables) *)
Definition loadConfigFile (filename termName : string) (verbose : bool)
    : stmt unit :=
  when verbose
    (print [out_text "Loading TermTaskspacePose from file "; out_text filename]) ;;
  eeInd <- call (loadScalarCF_size_t filename "eeId" termName) ;;
  modify (set_eeInd eeInd) ;;
  Qrot <- call (loadScalarCF_double filename "Q_rot" termName) ;;
  modify (set_Q_rot Qrot) ;;
  Qpos <- call (loadMatrixCF_3_3 filename "Q_pos" termName) ;;
  modify (set_Q_pos Qpos) ;;
  x_des <- call (loadMatrixCF_3_1 filename "x_des" termName) ;;
  modify (set_w_p_ref x_des) ;;
  try_catch
    (print [out_text "trying to load quaternion"] ;;
     quat_vec <- call (loadMatrixCF_4_1 filename "quat_des" termName) ;;
     let quat_des :=
       mkQuaternion (c0 quat_vec) (c1 quat_vec) (c2 quat_vec) (c3 quat_vec) in
     modify (set_w_R_ref (toRotationMatrix quat_des)) ;;
     when verbose
       (print [out_text ("Read quat_des as = " ++ newline);
               out_double (qw quat_des); out_text " ";
               out_double (qx quat_des); out_text " ";
               out_double (qy quat_des); out_text " ";
               out_double (qz quat_des); out_text " "]))
    (fun e =>
       print [out_text "trying to load euler angles"] ;;
       try_catch
         (eulerXyz <- call (loadMatrixCF_3_1 filename "eulerXyz_des" termName) ;;
          let quat_des :=
            qaamul (aamul (mkAngleAxis (v0 eulerXyz) UnitX)
                          (mkAngleAxis (v1 eulerXyz) UnitY))
                   (mkAngleAxis (v2 eulerXyz) UnitZ) in
          modify (set_w_R_ref (toRotationMatrix quat_des)) ;;
          when verbose
            (print [out_text ("Read desired Euler Angles Xyz as  = " ++ newline);
                    out_row (vtranspose eulerXyz)]))
         (fun e' => throw MissingOrientation)) ;;
  this <- members ;;
  when verbose
    (print [out_text ("Read eeId as eeId = " ++ newline); out_size_t (eeInd_ this)] ;;
     print [out_text ("Read Q_pos as Q_pos = " ++ newline); out_matrix (Q_pos_ this)] ;;
     print [out_text ("Read Q_rot as Q_rot = " ++ newline); out_double (Q_rot_ this)] ;;
     print [out_text ("Read x_des as x_des = " ++ newline);
            out_row (vtranspose (w_p_ref_ this))]).

(** construct this term with info loaded from a configuration file: the
    members start as the storage holds them, with [kinematics_]
    default-constructed, and [loadConfigFile] runs on them. An exception
    leaves the constructor and no term comes to exist. The function
    returns what was written to [std::cout] and the term or the error. *)
Definition ctor_config (storage : TermTaskspacePose K) (output : list (list cout_item))
    (configFile termName : string) (verbose : bool)
    : list (list cout_item) * (exception + TermTaskspacePose K) :=
  let start := mkMachine (ctor_default storage) output in
  match loadConfigFile configFile termName verbose start with
  | (s, inr _) => (cout s, inr (this_ s))
  | (s, inl e) => (cout s, inl e)
  end.
End Loader.

Arguments machine K : clear implicits.
Arguments stmt K A : clear implicits.

(** ** A robot to run the term on *)

(** A lifting column: one prismatic joint along the vertical axis of the
    world; the end effector sits at height [q(0)] and keeps the orientation
    of the world. *)
Inductive Column : Type := column.

#[export] Instance Column_class : KinematicsClass Column := {
  NJOINTS := 1;
  KINEMATICS := column
}.

#[export] Instance Column_ops {SC : Type} {sc : Scalar SC} : KinematicsOps SC Column := {
  getEEPositionInWorld := fun _ _ _ q =>
    mkVector3 (sc_cast 0) (sc_cast 0) (coeff q 0);
  getEERotInWorld := fun _ _ _ _ => Identity
}.

(** ** A differentiable scalar *)

(** A scalar that records the computation that produced it: a parameter of
    the tape, an independent variable, or an operation on recorded scalars. *)
Inductive tape : Type :=
| tape_par (c : R)
| tape_var (i : nat)
| tape_add (a b : tape)
| tape_sub (a b : tape)
| tape_mul (a b : tape)
| tape_sqrt (a : tape).

#[export] Instance tape_Scalar : Scalar tape := {
  sc_add := tape_add;
  sc_sub := tape_sub;
  sc_mul := tape_mul;
  sc_sqrt := tape_sqrt;
  sc_cast := tape_par
}.

(** The value of a recorded scalar, at given values of the independent
    variables. *)
Fixpoint tape_value (env : nat -> R) (a : tape) : R :=
  match a with
  | tape_par c => c
  | tape_var i => env i
  | tape_add a b => tape_value env a + tape_value env b
  | tape_sub a b => tape_value env a - tape_value env b
  | tape_mul a b => tape_value env a * tape_value env b
  | tape_sqrt a => sqrt (tape_value env a)
  end.

(** ** The formula of the specification *)

Module SpecFormula.
Definition vget (a : Vector3 R) (i : nat) : R :=
  match i with
  | 0%nat => v0 a
  | 1%nat => v1 a
  | _ => v2 a
  end.

Definition mget (m : Matrix3 R) (i j : nat) : R :=
  match i, j with
  | 0%nat, 0%nat => m00 m | 0%nat, 1%nat => m01 m | 0%nat, _ => m02 m
  | 1%nat, 0%nat => m10 m | 1%nat, 1%nat => m11 m | 1%nat, _ => m12 m
  | _, 0%nat => m20 m | _, 1%nat => m21 m | _, _ => m22 m
  end.

(** the sum over the three indices *)
Definition sum3 (f : nat -> R) : R := f 0%nat + f 1%nat + f 2%nat.

(** [positionError^T * Wpos * positionError] *)
Definition positionCost (Wpos : Matrix3 R) (positionError : Vector3 R) : R :=
  sum3 (fun i => sum3 (fun j =>
    vget positionError i * mget Wpos i j * vget positionError j)).

(** the coefficient [(i, j)] of [referenceRotation^T * currentRotation] *)
Definition rotationDiff (referenceRotation currentRotation : Matrix3 R)
    (i j : nat) : R :=
  sum3 (fun k => mget referenceRotation k i * mget currentRotation k j).

Definition identity (i j : nat) : R := if (i =? j)%nat then 1 else 0.

(** the Frobenius norm: the square root of the sum of the squares of the
    coefficients *)
Definition FrobeniusNorm (m : nat -> nat -> R) : R :=
  sqrt (sum3 (fun i => sum3 (fun j => m i j * m i j))).

Definition rotationCost (Wrot : R) (referenceRotation currentRotation : Matrix3 R) : R :=
  Wrot * FrobeniusNorm (fun i j =>
    rotationDiff referenceRotation currentRotation i j - identity i j).

Definition cost (Wpos : Matrix3 R) (Wrot : R) (referencePosition : Vector3 R)
    (referenceRotation : Matrix3 R) (p : Vector3 R) (currentRotation : Matrix3 R) : R :=
  positionCost Wpos
    (mkVector3 (v0 p - v0 referencePosition) (v1 p - v1 referencePosition)
               (v2 p - v2 referencePosition))
  + rotationCost Wrot referenceRotation currentRotation.

(** the elementary rotations about the axes X, Y and Z *)
Definition Rx (a : R) : Matrix3 R :=
  mkMatrix3 1 0 0
            0 (cos a) (- sin a)
            0 (sin a) (cos a).
Definition Ry (a : R) : Matrix3 R :=
  mkMatrix3 (cos a) 0 (sin a)
            0 1 0
            (- sin a) 0 (cos a).
Definition Rz (a : R) : Matrix3 R :=
  mkMatrix3 (cos a) (- sin a) 0
            (sin a) (cos a) 0
            0 0 1.
End SpecFormula.

(** A matrix is a rotation when its transpose is its inverse, on both sides. *)
Definition orthonormal (m : Matrix3 R) : Prop :=
  mmul (transpose m) m = Identity /\ mmul m (transpose m) = Identity.

(** [k] times a vector, [k] times a matrix *)
Definition vscale (k : R) (a : Vector3 R) : Vector3 R :=
  mkVector3 (k * v0 a) (k * v1 a) (k * v2 a).

Definition mscale (k : R) (m : Matrix3 R) : Matrix3 R :=
  mmap (Rmult k) m.

(** ** The output of the loader *)

Section LoaderOutput.
Context {K : Type}.
Local Open Scope string_scope.

(** The lines the loader writes when [verbose] is set. *)
Definition line_loading (filename : string) : list cout_item :=
  [out_text "Loading TermTaskspacePose from file "; out_text filename].

Definition line_quat (q : Quaternion) : list cout_item :=
  [out_text ("Read quat_des as = " ++ newline);
   out_double (qw q); out_text " "; out_double (qx q); out_text " ";
   out_double (qy q); out_text " "; out_double (qz q); out_text " "].

Definition line_euler (e : Vector3 R) : list cout_item :=
  [out_text ("Read desired Euler Angles Xyz as  = " ++ newline);
   out_row (vtranspose e)].

Definition lines_members (t : TermTaskspacePose K) : list (list cout_item) :=
  [[out_text ("Read eeId as eeId = " ++ newline); out_size_t (eeInd_ t)];
   [out_text ("Read Q_pos as Q_pos = " ++ newline); out_matrix (Q_pos_ t)];
   [out_text ("Read Q_rot as Q_rot = " ++ newline); out_double (Q_rot_ t)];
   [out_text ("Read x_des as x_des = " ++ newline); out_row (vtranspose (w_p_ref_ t))]].

(** The lines the loader writes whether [verbose] is set or not. *)
Definition line_try_quat : list cout_item := [out_text "trying to load quaternion"].
Definition line_try_euler : list cout_item := [out_text "trying to load euler angles"].

Definition if_verbose {A : Type} (verbose : bool) (l : list A) : list A :=
  if verbose then l else [].
End LoaderOutput.

(** ** What the loader announces *)

Inductive orientation_field : Type :=
| field_quat_des
| field_eulerXyz_des.

(** The orientation field a line of the output announces the read of. *)
Definition attempt_of_line (line : list cout_item) : option orientation_field :=
  match line with
  | [out_text text] =>
      if String.eqb text "trying to load quaternion" then Some field_quat_des
      else if String.eqb text "trying to load euler angles" then Some field_eulerXyz_des
      else None
  | _ => None
  end.

(** The orientation fields whose read an output announces, in order. *)
Fixpoint attempts (output : list (list cout_item)) : list orientation_field :=
  match output with
  | [] => []
  | line :: rest =>
      match attempt_of_line line with
      | Some f => f :: attempts rest
      | None => attempts rest
      end
  end.

(** What was written between two states. *)
Definition written {K : Type} (before after : machine K) : list (list cout_item) :=
  skipn (List.length (cout before)) (cout after).

(** ** What a configuration gives, read in the order of the loader *)

Section ReadTerm.
Context {K : Type} {kc : KinematicsClass K} {reader : ConfigReader}.
Local Open Scope string_scope.

(** the reference rotation: from the quaternion as it is, else from the
    Euler angles, else the error *)
Definition read_orientation (filename termName : string) : exception + Matrix3 R :=
  match loadMatrixCF_4_1 filename "quat_des" termName with
  | inr quat_vec =>
      inr (toRotationMatrix
             (mkQuaternion (c0 quat_vec) (c1 quat_vec) (c2 quat_vec) (c3 quat_vec)))
  | inl _ =>
      match loadMatrixCF_3_1 filename "eulerXyz_des" termName with
      | inr eulerXyz => inr (toRotationMatrix (quat_of_eulerXyz eulerXyz))
      | inl _ => inl MissingOrientation
      end
  end.

(** the term whose every member is the value read, or the error of the
    first read that fails *)
Definition read_term (filename termName : string) : exception + TermTaskspacePose K :=
  match loadScalarCF_size_t filename "eeId" termName with
  | inl e => inl e
  | inr eeInd =>
      match loadScalarCF_double filename "Q_rot" termName with
      | inl e => inl e
      | inr Qrot =>
          match loadMatrixCF_3_3 filename "Q_pos" termName with
          | inl e => inl e
          | inr Qpos =>
              match loadMatrixCF_3_1 filename "x_des" termName with
              | inl e => inl e
              | inr x_des =>
                  match read_orientation filename termName with
                  | inl e => inl e
                  | inr Rref => inr (mkTerm eeInd KINEMATICS Qpos Qrot x_des Rref)
                  end
              end
          end
      end
  end.
End ReadTerm.

(** ** Terms the class can construct *)

Section ConstructedTerms.
Context {K : Type} {kc : KinematicsClass K} {reader : ConfigReader}.

(** The terms that come out of a constructor, and what [loadConfigFile]
    makes of them. *)
Inductive constructed : TermTaskspacePose K -> Prop :=
| constructed_default (storage : TermTaskspacePose K) :
    constructed (ctor_default storage)
| constructed_quat (eeInd : nat) (Qpos : Matrix3 R) (Qrot : R)
    (w_pos_des : Vector3 R) (w_q_des : Quaternion) :
    constructed (ctor_quat eeInd Qpos Qrot w_pos_des w_q_des)
| constructed_euler (eeInd : nat) (Qpos : Matrix3 R) (Qrot : R)
    (w_pos_des eulerXyz : Vector3 R) :
    constructed (ctor_euler eeInd Qpos Qrot w_pos_des eulerXyz)
| constructed_config (storage : TermTaskspacePose K) (out : list (list cout_item))
    (configFile termName : string) (verbose : bool) (this : TermTaskspacePose K) :
    snd (ctor_config storage out configFile termName verbose) = inr this ->
    constructed this
| constructed_copy (arg : TermTaskspacePose K) :
    constructed arg -> constructed (ctor_copy arg)
| constructed_load (this : TermTaskspacePose K) (out : list (list cout_item))
    (filename termName : string) (verbose : bool) :
    constructed this ->
    constructed
      (this_ (fst (loadConfigFile filename termName verbose (mkMachine this out)))).
End ConstructedTerms.

(** ** One formula for every scalar type *)

Definition pose_map {A B : Type} (h : A -> B) (p : RigidBodyPose A) : RigidBodyPose B :=
  mkRigidBodyPose (vmap h (pose_eulerXyz p)) (vmap h (pose_position p)).

(** The kinematics on two scalar types give the same answers through [h]. *)
Definition kinematics_natural {K A B : Type} {koA : KinematicsOps A K} {koB : KinematicsOps B K}
    (h : A -> B) : Prop :=
  forall (k : K) (i : nat) (p : RigidBodyPose A) (q : list A),
    getEEPositionInWorld k i (pose_map h p) (map h q)
    = vmap h (getEEPositionInWorld k i p q)
    /\ getEERotInWorld k i (pose_map h p) (map h q)
       = mmap h (getEERotInWorld k i p q).

(** ** A configuration to load *)

(** The fields a term may have in a configuration file. *)
Record Config : Type := mkConfig {
  cfg_eeId : option nat;
  cfg_Q_rot : option R;
  cfg_Q_pos : option (Matrix3 R);
  cfg_x_des : option (Vector3 R);
  cfg_quat_des : option Vector4;
  cfg_eulerXyz_des : option (Vector3 R)
}.

Definition no_such_node (name : string) : exception :=
  std_exception ("No such node (" ++ name ++ ")").

Definition read_field {A : Type} (expected name : string) (field : option A)
    : exception + A :=
  if String.eqb name expected
  then match field with
       | Some v => inr v
       | None => inl (no_such_node name)
       end
  else inl (no_such_node name).

(** A reader over one configuration: a read succeeds when the field is
    there and fails otherwise. *)
Definition reader_of_config (c : Config) : ConfigReader := {|
  loadScalarCF_size_t := fun _ name _ => read_field "eeId" name (cfg_eeId c);
  loadScalarCF_double := fun _ name _ => read_field "Q_rot" name (cfg_Q_rot c);
  loadMatrixCF_3_3 := fun _ name _ => read_field "Q_pos" name (cfg_Q_pos c);
  loadMatrixCF_3_1 := fun _ name _ =>
    if String.eqb name "x_des" then read_field "x_des" name (cfg_x_des c)
    else read_field "eulerXyz_des" name (cfg_eulerXyz_des c);
  loadMatrixCF_4_1 := fun _ name _ => read_field "quat_des" name (cfg_quat_des c)
|}.

(** A complete configuration with the quaternion [(2, 0, 0, 0)], which is
    not of norm one. *)
Definition config_quat_2 : Config :=
  mkConfig (Some 2%nat) (Some 0.5) (Some Identity) (Some (mkVector3 0 0 1))
           (Some (mkVector4 2 0 0 0)) None.

(** A configuration that has the index of the end effector and nothing else. *)
Definition config_only_eeId : Config :=
  mkConfig (Some 5%nat) None None None None None.

(** A complete configuration with the quaternion [(0, 2, 0, 0)]. *)
Definition config_quat_x2 : Config :=
  mkConfig (Some 2%nat) (Some 0.5) (Some Identity) (Some (mkVector3 0 0 1))
           (Some (mkVector4 0 2 0 0)) None.

(** A complete configuration with Euler angles and no quaternion. *)
Definition config_euler : Config :=
  mkConfig (Some 2%nat) (Some 0.5) (Some Identity) (Some (mkVector3 0 0 1))
           None (Some (mkVector3 PI 0 0)).

(** A configuration with the required fields and no orientation at all. *)
Definition config_no_orientation : Config :=
  mkConfig (Some 2%nat) (Some 0.5) (Some Identity) (Some (mkVector3 0 0 1))
           None None.

(** The term of the example of the specification, on the column. *)
Definition example_term : TermTaskspacePose Column :=
  ctor_quat 2 Identity 0.5 (mkVector3 0 0 1) (mkQuaternion 1 0 0 0).

(** Values of the independent variables: the joint at 1.1, at rest. *)
Definition example_env (i : nat) : R :=
  match i with
  | 0%nat => 1.1
  | _ => 0
  end.

(** A term of rotation weight 0 whose reference orientation is a half
    turn about Z. *)
Definition half_turn_term : TermTaskspacePose Column :=
  ctor_quat 0 Identity 0 (mkVector3 0 0 0) (mkQuaternion 0 0 0 1).

(** ** What the loader makes of the members *)

Section LoadMembers.
Context {K : Type} {reader : ConfigReader}.
Local Open Scope string_scope.

(** The members after [loadConfigFile] and its outcome, from the members
    before it: every value is stored as soon as it is read, and the first
    read that fails ends the load. *)
Definition load_members (filename termName : string) (t : TermTaskspacePose K)
    : TermTaskspacePose K * (exception + unit) :=
  match loadScalarCF_size_t filename "eeId" termName with
  | inl e => (t, inl e)
  | inr eeInd =>
      let t1 := set_eeInd eeInd t in
      match loadScalarCF_double filename "Q_rot" termName with
      | inl e => (t1, inl e)
      | inr Qrot =>
          let t2 := set_Q_rot Qrot t1 in
          match loadMatrixCF_3_3 filename "Q_pos" termName with
          | inl e => (t2, inl e)
          | inr Qpos =>
              let t3 := set_Q_pos Qpos t2 in
              match loadMatrixCF_3_1 filename "x_des" termName with
              | inl e => (t3, inl e)
              | inr x_des =>
                  let t4 := set_w_p_ref x_des t3 in
                  match read_orientation filename termName with
                  | inl e => (t4, inl e)
                  | inr Rref => (set_w_R_ref Rref t4, inr tt)
                  end
              end
          end
      end
  end.

(** What a load that is not verbose writes to [std::cout]. *)
Definition quiet_output (filename termName : string) : list (list cout_item) :=
  match loadScalarCF_size_t filename "eeId" termName,
        loadScalarCF_double filename "Q_rot" termName,
        loadMatrixCF_3_3 filename "Q_pos" termName,
        loadMatrixCF_3_1 filename "x_des" termName with
  | inr _, inr _, inr _, inr _ =>
      match loadMatrixCF_4_1 filename "quat_des" termName with
      | inr _ => [line_try_quat]
      | inl _ => [line_try_quat; line_try_euler]
      end
  | _, _, _, _ => []
  end.
End LoadMembers.

(** ** Weights and rotations *)

(** the sum of the diagonal *)
Definition trace (m : Matrix3 R) : R := m00 m + m11 m + m22 m.

(** the quadratic form [e^T * W * e], as [evalLocal] computes it *)
Definition quadratic_form (W : Matrix3 R) (e : Vector3 R) : R :=
  rdot (rmul (vtranspose e) W) e.

Definition positive_semidefinite (W : Matrix3 R) : Prop :=
  forall e : Vector3 R, 0 <= quadratic_form W e.

Definition positive_definite (W : Matrix3 R) : Prop :=
  forall e : Vector3 R, e <> mkVector3 0 0 0 -> 0 < quadratic_form W e.

(** [W + W^T]: twice the symmetric part of [W] *)
Definition symmetric_part (W : Matrix3 R) : Matrix3 R :=
  mkMatrix3 (m00 W + m00 W) (m01 W + m10 W) (m02 W + m20 W)
            (m10 W + m01 W) (m11 W + m11 W) (m12 W + m21 W)
            (m20 W + m02 W) (m21 W + m12 W) (m22 W + m22 W).

(** [k] times a quaternion, coefficient by coefficient *)
Definition qscale (k : R) (q : Quaternion) : Quaternion :=
  mkQuaternion (k * qw q) (k * qx q) (k * qy q) (k * qz q).

(** A complete configuration with the quaternion of a half turn about X. *)
Definition config_quat_unit : Config :=
  mkConfig (Some 2%nat) (Some 0.5) (Some Identity) (Some (mkVector3 0 0 1))
           (Some (mkVector4 0 1 0 0)) None.

(** ** A second robot *)

(** A turntable: one revolute joint about the vertical axis of the world;
    the end effector stays at the origin and is turned by the angle [q(0)]. *)
Inductive Turntable : Type := turntable.

Definition Turntable_class : KinematicsClass Turntable := {|
  NJOINTS := 1;
  KINEMATICS := turntable
|}.

Definition Turntable_ops : KinematicsOps R Turntable := {|
  getEEPositionInWorld := fun _ _ _ _ => mkVector3 0 0 0;
  getEERotInWorld := fun _ _ _ q => SpecFormula.Rz (coeff q 0)
|}.

(** A term on the turntable whose reference is the pose at rest. *)
Definition turntable_term : TermTaskspacePose Turntable :=
  mkTerm 0 turntable Identity 0.5 (mkVector3 0 0 0) Identity.

(** A term on the turntable whose reference is turned by a half turn. *)
Definition turntable_term_turned : TermTaskspacePose Turntable :=
  mkTerm 0 turntable Identity 0.5 (mkVector3 0 0 0) (SpecFormula.Rz PI).

(** The term of the example with the reference rotation given as a matrix. *)
Definition example_term_matrix : TermTaskspacePose Column :=
  mkTerm 2 column Identity 0.5 (mkVector3 0 0 1) Identity.

(** A position weight that is not symmetric, with the symmetric part of the
    identity. *)
Definition skewed_weight : Matrix3 R :=
  mkMatrix3 1 1 0
            (-1) 1 0
            0 0 1.

(** * Properties *)

Lemma Matrix3_eq (a b : Matrix3 R) :
  m00 a = m00 b -> m01 a = m01 b -> m02 a = m02 b ->
  m10 a = m10 b -> m11 a = m11 b -> m12 a = m12 b ->
  m20 a = m20 b -> m21 a = m21 b -> m22 a = m22 b -> a = b.
Proof.
  destruct a, b; cbn; intros; subst; reflexivity.
Qed.

Lemma squaredNorm_nonneg (m : Matrix3 R) : 0 <= squaredNorm m.
Proof.
  unfold squaredNorm; cbn.
  pose proof (Rle_0_sqr (m00 m)); pose proof (Rle_0_sqr (m01 m));
  pose proof (Rle_0_sqr (m02 m)); pose proof (Rle_0_sqr (m10 m));
  pose proof (Rle_0_sqr (m11 m)); pose proof (Rle_0_sqr (m12 m));
  pose proof (Rle_0_sqr (m20 m)); pose proof (Rle_0_sqr (m21 m));
  pose proof (Rle_0_sqr (m22 m)); unfold Rsqr in *; lra.
Qed.

Lemma norm_nonneg (m : Matrix3 R) : 0 <= norm m.
Proof. unfold norm; cbn. apply sqrt_pos. Qed.

Lemma squaredNorm_zero (m : Matrix3 R) :
  squaredNorm m = 0 -> m = mkMatrix3 0 0 0 0 0 0 0 0 0.
Proof.
  unfold squaredNorm; cbn; intros Hs.
  destruct m as [a b c d e f g h i]; cbn in *.
  assert (forall r, r * r = 0 -> r = 0) as Hz by (intros r Hr; nra).
  f_equal; apply Hz; nra.
Qed.

Lemma norm_zero_iff (m : Matrix3 R) :
  norm m = 0 <-> m = mkMatrix3 0 0 0 0 0 0 0 0 0.
Proof.
  split.
  - unfold norm; cbn; intros Hn.
    apply squaredNorm_zero.
    apply sqrt_eq_0; [apply squaredNorm_nonneg | exact Hn].
  - intros ->. unfold norm, squaredNorm; cbn.
    replace (0 * 0 + 0 * 0 + 0 * 0 + 0 * 0 + 0 * 0 + 0 * 0 + 0 * 0 + 0 * 0 + 0 * 0)
      with 0 by ring.
    apply sqrt_0.
Qed.

Lemma norm_mscale (k : R) (m : Matrix3 R) : norm (mscale k m) = Rabs k * norm m.
Proof.
  unfold norm, mscale, mmap, squaredNorm; cbn.
  rewrite <- sqrt_Rsqr_abs, <- sqrt_mult_alt by apply Rle_0_sqr.
  f_equal. unfold Rsqr. ring.
Qed.

Section CostFormula.
Context {K : Type} {kc : KinematicsClass K} {ko : KinematicsOps R K}.
Variable FB : bool.

Lemma evalLocal_split (this : TermTaskspacePose K) (x u : list R) (t : R) :
  evalLocal FB this x u t = pos_cost FB this x + rot_cost FB this x.
Proof. reflexivity. Qed.

Lemma pos_cost_spec (this : TermTaskspacePose K) (x : list R) :
  pos_cost FB this x = SpecFormula.positionCost (Q_pos_ this) (xDiff FB this x).
Proof.
  unfold pos_cost, SpecFormula.positionCost, SpecFormula.sum3, rdot, rmul, vtranspose.
  cbn. ring.
Qed.

Lemma rot_cost_spec (this : TermTaskspacePose K) (x : list R) :
  rot_cost FB this x
  = SpecFormula.rotationCost (Q_rot_ this) (w_R_ref_ this) (ee_rot FB this x).
Proof.
  unfold rot_cost, SpecFormula.rotationCost, SpecFormula.FrobeniusNorm, norm.
  cbn. f_equal. f_equal.
  unfold squaredNorm, SpecFormula.sum3, SpecFormula.rotationDiff, SpecFormula.sum3.
  cbn. ring.
Qed.

(** C1. For every state vector, [evaluate] is
    [positionError^T * Wpos * positionError
     + Wrot * FrobeniusNorm(referenceRotation^T * currentRotation - Identity)],
    where [positionError] is the end-effector position the kinematics
    gives in the world minus the reference position. The position term is
    quadratic: between two states whose position errors are in ratio [k]
    it is multiplied by [k * k]. The rotation term is of the first order:
    between two states whose [rotationDiff - Identity] are in ratio [k] it
    is multiplied by [|k|]. *)
Theorem C1_evaluate_formula :
  (forall (this : TermTaskspacePose K) (x u : list R) (t : R),
     evaluate FB this x u t
     = SpecFormula.cost (Q_pos_ this) (Q_rot_ this) (w_p_ref_ this) (w_R_ref_ this)
         (ee_pos FB this x) (ee_rot FB this x)
     /\ evaluate FB this x u t = pos_cost FB this x + rot_cost FB this x)
  /\ (forall (this : TermTaskspacePose K) (x x' : list R) (k : R),
        xDiff FB this x' = vscale k (xDiff FB this x) ->
        pos_cost FB this x' = k * k * pos_cost FB this x)
  /\ (forall (this : TermTaskspacePose K) (x x' : list R) (k : R),
        msub (ee_rot_diff FB this x') Identity
        = mscale k (msub (ee_rot_diff FB this x) Identity) ->
        rot_cost FB this x' = Rabs k * rot_cost FB this x).
Proof.
  split; [| split].
  - intros this x u t. split; [| reflexivity].
    unfold evaluate. rewrite evalLocal_split, pos_cost_spec, rot_cost_spec.
    reflexivity.
  - intros this x x' k Hk.
    unfold pos_cost. rewrite Hk.
    unfold rdot, rmul, vtranspose, vscale. cbn. ring.
  - intros this x x' k Hk.
    unfold rot_cost. rewrite Hk, norm_mscale. cbn. ring.
Qed.
End CostFormula.

(** ** Matrices and quaternions over the reals *)

Lemma mmul_assoc (a b c : Matrix3 R) : mmul (mmul a b) c = mmul a (mmul b c).
Proof. unfold mmul; cbn; f_equal; ring. Qed.

Lemma mmul_Identity_l (a : Matrix3 R) : mmul Identity a = a.
Proof. destruct a; unfold mmul, Identity; cbn; f_equal; ring. Qed.

Lemma mmul_Identity_r (a : Matrix3 R) : mmul a Identity = a.
Proof. destruct a; unfold mmul, Identity; cbn; f_equal; ring. Qed.

Lemma transpose_involutive (a : Matrix3 R) : transpose (transpose a) = a.
Proof. destruct a; reflexivity. Qed.

Lemma mcast_double (m : Matrix3 R) : mcast m = m.
Proof. destruct m; reflexivity. Qed.

Lemma vcast_double (a : Vector3 R) : vcast a = a.
Proof. destruct a; reflexivity. Qed.

Lemma msub_zero_iff (a b : Matrix3 R) :
  msub a b = mkMatrix3 0 0 0 0 0 0 0 0 0 <-> a = b.
Proof.
  split.
  - intros Hs. unfold msub in Hs; cbn in Hs.
    injection Hs; intros. apply Matrix3_eq; lra.
  - intros ->. unfold msub; cbn. f_equal; ring.
Qed.

Lemma orthonormal_Identity : orthonormal Identity.
Proof. split; unfold mmul, transpose, Identity; cbn; f_equal; ring. Qed.

Lemma normalized_unit (q : Quaternion) : qsquaredNorm q = 1 -> normalized q = q.
Proof.
  intros Hq. unfold normalized. rewrite Hq.
  destruct (Rlt_dec 0 1) as [_ | Hn]; [| lra].
  rewrite sqrt_1. destruct q; cbn. f_equal; field.
Qed.

Lemma toRotationMatrix_identity :
  toRotationMatrix (normalized (mkQuaternion 1 0 0 0)) = Identity.
Proof.
  rewrite normalized_unit by (unfold qsquaredNorm; cbn; ring).
  unfold toRotationMatrix, Identity; cbn. f_equal; ring.
Qed.

Section ReferencePose.
Context {K : Type} {kc : KinematicsClass K} {ko : KinematicsOps R K}.
Variable FB : bool.

Lemma rot_cost_zero_at_reference (this : TermTaskspacePose K) (x : list R) :
  ee_rot FB this x = w_R_ref_ this ->
  mmul (transpose (w_R_ref_ this)) (w_R_ref_ this) = Identity ->
  rot_cost FB this x = 0.
Proof.
  intros Hrot Horth.
  unfold rot_cost, ee_rot_diff. rewrite Hrot, mcast_double, Horth.
  replace (norm (msub Identity Identity)) with 0.
  - cbn. ring.
  - symmetry. apply norm_zero_iff. apply msub_zero_iff. reflexivity.
Qed.

Lemma pos_cost_zero_at_reference (this : TermTaskspacePose K) (x : list R) :
  ee_pos FB this x = w_p_ref_ this -> pos_cost FB this x = 0.
Proof.
  intros Hpos. unfold pos_cost, xDiff. rewrite Hpos, vcast_double.
  unfold rdot, rmul, vtranspose, vsub. cbn. ring.
Qed.

(** C6. When the end effector is at the reference pose (its position is
    the reference position, its rotation, a rotation matrix, is the
    reference rotation), [evaluate] returns 0, for any position weight,
    positive semidefinite or not, and any rotation weight. With
    [Wpos = diag(1,1,1)], [Wrot = 0.5], reference position [(0,0,1)] and
    the identity as reference orientation, a state that places the end
    effector at [(0,0,1)] with the identity as orientation costs 0, and a
    state that places it at [(0,0,1.1)] with the same orientation costs
    0.01. *)
Theorem C6_cost_at_reference_pose :
  (forall (this : TermTaskspacePose K) (x u : list R) (t : R),
     ee_pos FB this x = w_p_ref_ this ->
     ee_rot FB this x = w_R_ref_ this ->
     orthonormal (ee_rot FB this x) ->
     evaluate FB this x u t = 0)
  /\ (forall (x u : list R) (t : R),
        let this :=
          ctor_quat 2 Identity 0.5 (mkVector3 0 0 1) (mkQuaternion 1 0 0 0) in
        ee_pos FB this x = mkVector3 0 0 1 ->
        ee_rot FB this x = Identity ->
        evaluate FB this x u t = 0)
  /\ (forall (x u : list R) (t : R),
        let this :=
          ctor_quat 2 Identity 0.5 (mkVector3 0 0 1) (mkQuaternion 1 0 0 0) in
        ee_pos FB this x = mkVector3 0 0 1.1 ->
        ee_rot FB this x = Identity ->
        evaluate FB this x u t = 0.01).
Proof.
  split; [| split].
  - intros this x u t Hpos Hrot [Horth _].
    unfold evaluate. rewrite evalLocal_split.
    rewrite pos_cost_zero_at_reference by exact Hpos.
    rewrite rot_cost_zero_at_reference; [cbn; ring | exact Hrot |].
    rewrite Hrot in Horth. exact Horth.
  - intros x u t this Hpos Hrot.
    unfold evaluate. rewrite evalLocal_split.
    rewrite pos_cost_zero_at_reference by exact Hpos.
    rewrite rot_cost_zero_at_reference; [cbn; ring | |].
    + rewrite Hrot. unfold this, ctor_quat; cbn [w_R_ref_].
      symmetry. apply toRotationMatrix_identity.
    + unfold this, ctor_quat; cbn [w_R_ref_].
      rewrite toRotationMatrix_identity. apply orthonormal_Identity.
  - intros x u t this Hpos Hrot.
    unfold evaluate. rewrite evalLocal_split.
    rewrite rot_cost_zero_at_reference.
    + unfold pos_cost, xDiff. rewrite Hpos.
      unfold rdot, rmul, vtranspose, vsub, Identity. cbn. lra.
    + rewrite Hrot. unfold this, ctor_quat; cbn [w_R_ref_].
      symmetry. apply toRotationMatrix_identity.
    + unfold this, ctor_quat; cbn [w_R_ref_].
      rewrite toRotationMatrix_identity. apply orthonormal_Identity.
Qed.

Lemma rot_cost_zero_diff (this : TermTaskspacePose K) (x : list R) :
  0 < Q_rot_ this ->
  rot_cost FB this x = 0 ->
  mmul (transpose (w_R_ref_ this)) (ee_rot FB this x) = Identity.
Proof.
  intros Hw Hc. unfold rot_cost in Hc. cbn in Hc.
  assert (norm (msub (ee_rot_diff FB this x) Identity) = 0) as Hn.
  { cbn. apply Rmult_integral in Hc. destruct Hc as [Hc | Hc]; [lra | exact Hc]. }
  apply -> norm_zero_iff in Hn. apply -> msub_zero_iff in Hn.
  unfold ee_rot_diff in Hn. rewrite mcast_double in Hn. exact Hn.
Qed.

(** The same with an orthonormal reference rotation, whatever the kinematics
    returns. *)
Lemma rot_cost_zero_iff_reference (this : TermTaskspacePose K) (x : list R) :
  0 < Q_rot_ this ->
  orthonormal (w_R_ref_ this) ->
  rot_cost FB this x = 0 <-> ee_rot FB this x = w_R_ref_ this.
Proof.
  intros Hw [Hl Hr]. split.
  - intros Hc. apply rot_cost_zero_diff in Hc; [| exact Hw].
    rewrite <- (mmul_Identity_l (ee_rot FB this x)), <- Hr, mmul_assoc, Hc.
    apply mmul_Identity_r.
  - intros Hrot. apply rot_cost_zero_at_reference; assumption.
Qed.

(** C7 (amended). With a rotation weight that is not negative the rotation
    cost [Wrot * FrobeniusNorm(referenceRotation^T * currentRotation -
    Identity)] is not negative. With a positive rotation weight it is 0 if
    and only if the current rotation of the end effector, a rotation
    matrix, is the reference rotation. *)
Theorem C7_rot_cost_sign_and_zero :
  forall (this : TermTaskspacePose K) (x : list R),
    rot_cost FB this x
    = SpecFormula.rotationCost (Q_rot_ this) (w_R_ref_ this) (ee_rot FB this x)
    /\ (0 <= Q_rot_ this -> 0 <= rot_cost FB this x)
    /\ (0 < Q_rot_ this -> orthonormal (ee_rot FB this x) ->
        (rot_cost FB this x = 0 <-> ee_rot FB this x = w_R_ref_ this)).
Proof.
  intros this x. split; [apply rot_cost_spec | split].
  - intros Hw. unfold rot_cost.
    pose proof (norm_nonneg (msub (ee_rot_diff FB this x) Identity)) as Hn.
    cbn. cbn in Hn. nra.
  - intros Hw [Hl Hr]. split.
    + intros Hc. apply rot_cost_zero_diff in Hc; [| exact Hw].
      apply (f_equal (fun m => mmul m (transpose (ee_rot FB this x)))) in Hc.
      rewrite mmul_assoc, Hr, mmul_Identity_r, mmul_Identity_l in Hc.
      rewrite <- (transpose_involutive (ee_rot FB this x)),
              <- (transpose_involutive (w_R_ref_ this)).
      rewrite Hc. reflexivity.
    + intros Hrot. apply rot_cost_zero_at_reference; [exact Hrot |].
      rewrite <- Hrot. exact Hl.
Qed.
End ReferencePose.

(** ** Rotations from quaternions and from Euler angles *)

Lemma qsquaredNorm_qmul (p q : Quaternion) :
  qsquaredNorm (qmul p q) = qsquaredNorm p * qsquaredNorm q.
Proof. unfold qsquaredNorm, qmul; cbn. ring. Qed.

Lemma toRotationMatrix_qmul (p q : Quaternion) :
  qsquaredNorm p = 1 -> qsquaredNorm q = 1 ->
  toRotationMatrix (qmul p q) = mmul (toRotationMatrix p) (toRotationMatrix q).
Proof.
  destruct p as [pw px py pz], q as [w x y z].
  unfold qsquaredNorm, toRotationMatrix, qmul, mmul; cbn.
  intros Hp Hq.
  apply Matrix3_eq; cbn; nsatz.
Qed.

Lemma toRotationMatrix_orthonormal (q : Quaternion) :
  qsquaredNorm q = 1 -> orthonormal (toRotationMatrix q).
Proof.
  destruct q as [w x y z].
  unfold qsquaredNorm, orthonormal, toRotationMatrix, mmul, transpose, Identity; cbn.
  intros Hq. split; apply Matrix3_eq; cbn; nsatz.
Qed.

Lemma half_angle_cos (a : R) : 1 - 2 * (sin (0.5 * a) * sin (0.5 * a)) = cos a.
Proof.
  replace (cos a) with (cos (2 * (0.5 * a))) by (f_equal; lra).
  rewrite cos_2a_sin. ring.
Qed.

Lemma half_angle_sin (a : R) : 2 * (sin (0.5 * a) * cos (0.5 * a)) = sin a.
Proof.
  replace (sin a) with (sin (2 * (0.5 * a))) by (f_equal; lra).
  rewrite sin_2a. ring.
Qed.

Lemma sin_cos_unit (a : R) : cos a * cos a + sin a * sin a = 1.
Proof. pose proof (sin2_cos2 a) as Hs. unfold Rsqr in Hs. lra. Qed.

Lemma AngleAxis_UnitX_unit (a : R) :
  qsquaredNorm (Quaternion_of_AngleAxis (mkAngleAxis a UnitX)) = 1.
Proof.
  unfold qsquaredNorm, Quaternion_of_AngleAxis, UnitX; cbn.
  pose proof (sin_cos_unit (0.5 * a)). nra.
Qed.

Lemma AngleAxis_UnitY_unit (a : R) :
  qsquaredNorm (Quaternion_of_AngleAxis (mkAngleAxis a UnitY)) = 1.
Proof.
  unfold qsquaredNorm, Quaternion_of_AngleAxis, UnitY; cbn.
  pose proof (sin_cos_unit (0.5 * a)). nra.
Qed.

Lemma AngleAxis_UnitZ_unit (a : R) :
  qsquaredNorm (Quaternion_of_AngleAxis (mkAngleAxis a UnitZ)) = 1.
Proof.
  unfold qsquaredNorm, Quaternion_of_AngleAxis, UnitZ; cbn.
  pose proof (sin_cos_unit (0.5 * a)). nra.
Qed.

Lemma toRotationMatrix_UnitX (a : R) :
  toRotationMatrix (Quaternion_of_AngleAxis (mkAngleAxis a UnitX)) = SpecFormula.Rx a.
Proof.
  unfold toRotationMatrix, Quaternion_of_AngleAxis, UnitX, SpecFormula.Rx; cbn.
  pose proof (half_angle_cos a). pose proof (half_angle_sin a).
  f_equal; nra.
Qed.

Lemma toRotationMatrix_UnitY (a : R) :
  toRotationMatrix (Quaternion_of_AngleAxis (mkAngleAxis a UnitY)) = SpecFormula.Ry a.
Proof.
  unfold toRotationMatrix, Quaternion_of_AngleAxis, UnitY, SpecFormula.Ry; cbn.
  pose proof (half_angle_cos a). pose proof (half_angle_sin a).
  f_equal; nra.
Qed.

Lemma toRotationMatrix_UnitZ (a : R) :
  toRotationMatrix (Quaternion_of_AngleAxis (mkAngleAxis a UnitZ)) = SpecFormula.Rz a.
Proof.
  unfold toRotationMatrix, Quaternion_of_AngleAxis, UnitZ, SpecFormula.Rz; cbn.
  pose proof (half_angle_cos a). pose proof (half_angle_sin a).
  f_equal; nra.
Qed.

Lemma normalized_norm (q : Quaternion) :
  0 < qsquaredNorm q -> qsquaredNorm (normalized q) = 1.
Proof.
  intros Hpos. unfold normalized.
  destruct (Rlt_dec 0 (qsquaredNorm q)) as [_ | Hn]; [| contradiction].
  pose proof (sqrt_sqrt _ (Rlt_le _ _ Hpos)) as Hs.
  pose proof (sqrt_lt_R0 _ Hpos) as Hs0.
  unfold qsquaredNorm at 1; cbn [qw qx qy qz].
  set (s := sqrt (qsquaredNorm q)) in *.
  replace (qw q / s * (qw q / s) + qx q / s * (qx q / s)
           + qy q / s * (qy q / s) + qz q / s * (qz q / s))
    with (qsquaredNorm q / (s * s)) by (unfold qsquaredNorm; field; lra).
  rewrite Hs. field. lra.
Qed.

(** The reference rotation the quaternion constructor stores is a rotation,
    for every quaternion but zero. *)
Lemma ctor_quat_orthonormal {K : Type} {kc : KinematicsClass K}
    (eeInd : nat) (Qpos : Matrix3 R) (Qrot : R) (w_pos_des : Vector3 R)
    (w_q_des : Quaternion) :
  0 < qsquaredNorm w_q_des ->
  orthonormal (w_R_ref_ (ctor_quat eeInd Qpos Qrot w_pos_des w_q_des)).
Proof.
  intros Hpos. unfold ctor_quat; cbn [w_R_ref_].
  apply toRotationMatrix_orthonormal, normalized_norm, Hpos.
Qed.

Lemma quat_of_eulerXyz_unit (e : Vector3 R) :
  qsquaredNorm (quat_of_eulerXyz e) = 1.
Proof.
  unfold quat_of_eulerXyz, qaamul, aamul.
  rewrite !qsquaredNorm_qmul.
  rewrite AngleAxis_UnitX_unit, AngleAxis_UnitY_unit, AngleAxis_UnitZ_unit. ring.
Qed.

Lemma toRotationMatrix_quat_of_eulerXyz (e : Vector3 R) :
  toRotationMatrix (quat_of_eulerXyz e)
  = mmul (mmul (SpecFormula.Rx (v0 e)) (SpecFormula.Ry (v1 e))) (SpecFormula.Rz (v2 e)).
Proof.
  unfold quat_of_eulerXyz, qaamul, aamul.
  rewrite toRotationMatrix_qmul.
  - rewrite toRotationMatrix_qmul
      by (apply AngleAxis_UnitX_unit || apply AngleAxis_UnitY_unit).
    rewrite toRotationMatrix_UnitX, toRotationMatrix_UnitY, toRotationMatrix_UnitZ.
    reflexivity.
  - rewrite qsquaredNorm_qmul, AngleAxis_UnitX_unit, AngleAxis_UnitY_unit. ring.
  - apply AngleAxis_UnitZ_unit.
Qed.
Section EulerConstructor.
Context {K : Type} {kc : KinematicsClass K} {ko : KinematicsOps R K}.
Variable FB : bool.

(** C5. The Euler constructor delegates to the quaternion constructor, and
    the reference rotation it stores is [Rx(roll) * Ry(pitch) * Rz(yaw)],
    the matrices multiplied in that order from left to right. A term
    constructed from a quaternion that represents the same orientation is
    the same term, and evaluates the same on every input. *)
Theorem C5_euler_constructor :
  forall (eeInd : nat) (Qpos : Matrix3 R) (Qrot : R) (w_pos_des e : Vector3 R),
    w_R_ref_ (ctor_euler eeInd Qpos Qrot w_pos_des e)
    = mmul (mmul (SpecFormula.Rx (v0 e)) (SpecFormula.Ry (v1 e))) (SpecFormula.Rz (v2 e))
    /\ ctor_euler eeInd Qpos Qrot w_pos_des e
       = ctor_quat eeInd Qpos Qrot w_pos_des (quat_of_eulerXyz e)
    /\ (forall q : Quaternion,
          toRotationMatrix (normalized q)
          = mmul (mmul (SpecFormula.Rx (v0 e)) (SpecFormula.Ry (v1 e)))
                 (SpecFormula.Rz (v2 e)) ->
          ctor_quat eeInd Qpos Qrot w_pos_des q
          = ctor_euler eeInd Qpos Qrot w_pos_des e
          /\ forall (x u : list R) (t : R),
               evaluate FB (ctor_quat eeInd Qpos Qrot w_pos_des q) x u t
               = evaluate FB (ctor_euler eeInd Qpos Qrot w_pos_des e) x u t).
Proof.
  intros eeInd Qpos Qrot w_pos_des e.
  assert (w_R_ref_ (ctor_euler eeInd Qpos Qrot w_pos_des e)
          = mmul (mmul (SpecFormula.Rx (v0 e)) (SpecFormula.Ry (v1 e)))
                 (SpecFormula.Rz (v2 e))) as Href.
  { unfold ctor_euler, ctor_quat; cbn [w_R_ref_].
    rewrite normalized_unit by apply quat_of_eulerXyz_unit.
    apply toRotationMatrix_quat_of_eulerXyz. }
  split; [exact Href | split; [reflexivity |]].
  intros q Hq.
  assert (ctor_quat eeInd Qpos Qrot w_pos_des q
          = ctor_euler eeInd Qpos Qrot w_pos_des e) as Hsame.
  { unfold ctor_euler in *. unfold ctor_quat in *. cbn [w_R_ref_] in Href.
    rewrite Hq, Href. reflexivity. }
  split; [exact Hsame |].
  intros x u t. rewrite Hsame. reflexivity.
Qed.
End EulerConstructor.

(** ** The loader, case by case *)

Section LoaderCases.
Context {K : Type} {kc : KinematicsClass K} {reader : ConfigReader}.
Local Open Scope string_scope.

Variables filename termName : string.
Variable verbose : bool.
Variable s : machine K.

Ltac run_loader :=
  destruct s as [this out];
  unfold loadConfigFile, bind, call, modify, members, try_catch, print, when, ret, throw;
  repeat match goal with
         | Hr : ?r = _ |- context [?r] => rewrite Hr
         end;
  destruct verbose; cbn; rewrite <- ?app_assoc, ?app_nil_r; reflexivity.

Lemma load_fails_eeId (e : exception) :
  loadScalarCF_size_t filename "eeId" termName = inl e ->
  loadConfigFile filename termName verbose s
  = (mkMachine (this_ s) (cout s ++ if_verbose verbose [line_loading filename]),
     inl e).
Proof. intros H1. run_loader. Qed.

Lemma load_fails_Q_rot (eeInd : nat) (e : exception) :
  loadScalarCF_size_t filename "eeId" termName = inr eeInd ->
  loadScalarCF_double filename "Q_rot" termName = inl e ->
  loadConfigFile filename termName verbose s
  = (mkMachine (set_eeInd eeInd (this_ s))
               (cout s ++ if_verbose verbose [line_loading filename]),
     inl e).
Proof. intros H1 H2. run_loader. Qed.

Lemma load_fails_Q_pos (eeInd : nat) (Qrot : R) (e : exception) :
  loadScalarCF_size_t filename "eeId" termName = inr eeInd ->
  loadScalarCF_double filename "Q_rot" termName = inr Qrot ->
  loadMatrixCF_3_3 filename "Q_pos" termName = inl e ->
  loadConfigFile filename termName verbose s
  = (mkMachine (set_Q_rot Qrot (set_eeInd eeInd (this_ s)))
               (cout s ++ if_verbose verbose [line_loading filename]),
     inl e).
Proof. intros H1 H2 H3. run_loader. Qed.

Lemma load_fails_x_des (eeInd : nat) (Qrot : R) (Qpos : Matrix3 R) (e : exception) :
  loadScalarCF_size_t filename "eeId" termName = inr eeInd ->
  loadScalarCF_double filename "Q_rot" termName = inr Qrot ->
  loadMatrixCF_3_3 filename "Q_pos" termName = inr Qpos ->
  loadMatrixCF_3_1 filename "x_des" termName = inl e ->
  loadConfigFile filename termName verbose s
  = (mkMachine (set_Q_pos Qpos (set_Q_rot Qrot (set_eeInd eeInd (this_ s))))
               (cout s ++ if_verbose verbose [line_loading filename]),
     inl e).
Proof. intros H1 H2 H3 H4. run_loader. Qed.

Section RequiredFieldsRead.
Variable eeInd : nat.
Variable Qrot : R.
Variable Qpos : Matrix3 R.
Variable x_des : Vector3 R.
Hypothesis read_eeId : loadScalarCF_size_t filename "eeId" termName = inr eeInd.
Hypothesis read_Q_rot : loadScalarCF_double filename "Q_rot" termName = inr Qrot.
Hypothesis read_Q_pos : loadMatrixCF_3_3 filename "Q_pos" termName = inr Qpos.
Hypothesis read_x_des : loadMatrixCF_3_1 filename "x_des" termName = inr x_des.

Lemma load_quat (quat_vec : Vector4) :
  loadMatrixCF_4_1 filename "quat_des" termName = inr quat_vec ->
  let quat_des :=
    mkQuaternion (c0 quat_vec) (c1 quat_vec) (c2 quat_vec) (c3 quat_vec) in
  let loaded :=
    mkTerm eeInd (kinematics_ (this_ s)) Qpos Qrot x_des
           (toRotationMatrix quat_des) in
  loadConfigFile filename termName verbose s
  = (mkMachine loaded
       (cout s ++ if_verbose verbose [line_loading filename]
               ++ [line_try_quat]
               ++ if_verbose verbose [line_quat quat_des]
               ++ if_verbose verbose (lines_members loaded)),
     inr tt).
Proof. intros H5. run_loader. Qed.

Lemma load_euler (e : exception) (eulerXyz : Vector3 R) :
  loadMatrixCF_4_1 filename "quat_des" termName = inl e ->
  loadMatrixCF_3_1 filename "eulerXyz_des" termName = inr eulerXyz ->
  let loaded :=
    mkTerm eeInd (kinematics_ (this_ s)) Qpos Qrot x_des
           (toRotationMatrix (quat_of_eulerXyz eulerXyz)) in
  loadConfigFile filename termName verbose s
  = (mkMachine loaded
       (cout s ++ if_verbose verbose [line_loading filename]
               ++ [line_try_quat; line_try_euler]
               ++ if_verbose verbose [line_euler eulerXyz]
               ++ if_verbose verbose (lines_members loaded)),
     inr tt).
Proof. intros H5 H6. run_loader. Qed.

Lemma load_no_orientation (e e' : exception) :
  loadMatrixCF_4_1 filename "quat_des" termName = inl e ->
  loadMatrixCF_3_1 filename "eulerXyz_des" termName = inl e' ->
  loadConfigFile filename termName verbose s
  = (mkMachine
       (mkTerm eeInd (kinematics_ (this_ s)) Qpos Qrot x_des (w_R_ref_ (this_ s)))
       (cout s ++ if_verbose verbose [line_loading filename]
               ++ [line_try_quat; line_try_euler]),
     inl MissingOrientation).
Proof. intros H5 H6. run_loader. Qed.
End RequiredFieldsRead.
End LoaderCases.

Lemma skipn_length_app {A : Type} (l r : list A) : skipn (List.length l) (l ++ r) = r.
Proof. induction l as [| a l IH]; [reflexivity | exact IH]. Qed.

Section OrientationFallback.
Context {K : Type} {reader : ConfigReader}.
Local Open Scope string_scope.

(** C2. Once the four required fields are read, the orientation is
    resolved in order. The quaternion field is read first; when the read
    succeeds the reference rotation comes from it, whatever the Euler
    field holds, and the Euler field is not attempted. Only when the read
    of the quaternion fails is the Euler field attempted, and when that
    read succeeds the reference rotation is [Rx * Ry * Rz] of its three
    angles. When both reads fail the loader throws [MissingOrientation]
    and the reference rotation is left as it was: no default takes its
    place. *)
Theorem C2_orientation_fallback :
  forall (filename termName : string) (verbose : bool) (s : machine K)
         (eeInd : nat) (Qrot : R) (Qpos : Matrix3 R) (x_des : Vector3 R),
    loadScalarCF_size_t filename "eeId" termName = inr eeInd ->
    loadScalarCF_double filename "Q_rot" termName = inr Qrot ->
    loadMatrixCF_3_3 filename "Q_pos" termName = inr Qpos ->
    loadMatrixCF_3_1 filename "x_des" termName = inr x_des ->
    let r := loadConfigFile filename termName verbose s in
    (forall quat_vec : Vector4,
       loadMatrixCF_4_1 filename "quat_des" termName = inr quat_vec ->
       snd r = inr tt
       /\ w_R_ref_ (this_ (fst r))
          = toRotationMatrix
              (mkQuaternion (c0 quat_vec) (c1 quat_vec) (c2 quat_vec) (c3 quat_vec))
       /\ attempts (written s (fst r)) = [field_quat_des])
    /\ (forall (e : exception) (eulerXyz : Vector3 R),
          loadMatrixCF_4_1 filename "quat_des" termName = inl e ->
          loadMatrixCF_3_1 filename "eulerXyz_des" termName = inr eulerXyz ->
          snd r = inr tt
          /\ w_R_ref_ (this_ (fst r))
             = mmul (mmul (SpecFormula.Rx (v0 eulerXyz)) (SpecFormula.Ry (v1 eulerXyz)))
                    (SpecFormula.Rz (v2 eulerXyz))
          /\ attempts (written s (fst r)) = [field_quat_des; field_eulerXyz_des])
    /\ (forall e e' : exception,
          loadMatrixCF_4_1 filename "quat_des" termName = inl e ->
          loadMatrixCF_3_1 filename "eulerXyz_des" termName = inl e' ->
          snd r = inl MissingOrientation
          /\ w_R_ref_ (this_ (fst r)) = w_R_ref_ (this_ s)
          /\ attempts (written s (fst r)) = [field_quat_des; field_eulerXyz_des]).
Proof.
  intros filename termName verbose s eeInd Qrot Qpos x_des H1 H2 H3 H4 r.
  split; [| split].
  - intros quat_vec H5. subst r.
    rewrite (load_quat filename termName verbose s eeInd Qrot Qpos x_des H1 H2 H3 H4
               quat_vec H5).
    cbn [fst snd this_ w_R_ref_]. repeat split.
    unfold written; cbn [cout]. rewrite skipn_length_app.
    destruct verbose; reflexivity.
  - intros e eulerXyz H5 H6. subst r.
    rewrite (load_euler filename termName verbose s eeInd Qrot Qpos x_des H1 H2 H3 H4
               e eulerXyz H5 H6).
    cbn [fst snd this_ w_R_ref_]. repeat split.
    + apply toRotationMatrix_quat_of_eulerXyz.
    + unfold written; cbn [cout]. rewrite skipn_length_app.
      destruct verbose; reflexivity.
  - intros e e' H5 H6. subst r.
    rewrite (load_no_orientation filename termName verbose s eeInd Qrot Qpos x_des
               H1 H2 H3 H4 e e' H5 H6).
    cbn [fst snd this_ w_R_ref_]. repeat split.
    unfold written; cbn [cout]. rewrite skipn_length_app.
    destruct verbose; reflexivity.
Qed.
End OrientationFallback.

(** ** Normalization *)

Lemma toRotationMatrix_real_quaternion (q : Quaternion) :
  qx q = 0 -> qy q = 0 -> qz q = 0 ->
  toRotationMatrix q = Identity /\ toRotationMatrix (normalized q) = Identity.
Proof.
  destruct q as [w x y z]; cbn. intros -> -> ->. split.
  - unfold toRotationMatrix, Identity; cbn. f_equal; ring.
  - unfold normalized. destruct (Rlt_dec 0 _).
    + unfold toRotationMatrix, Identity, Rdiv; cbn. f_equal; ring.
    + unfold toRotationMatrix, Identity; cbn. f_equal; ring.
Qed.

Lemma toRotationMatrix_normalized_differs (q : Quaternion) :
  qsquaredNorm q <> 1 ->
  ~ (qx q = 0 /\ qy q = 0 /\ qz q = 0) ->
  toRotationMatrix (normalized q) <> toRotationMatrix q.
Proof.
  destruct q as [w x y z]. unfold qsquaredNorm; cbn [qw qx qy qz].
  intros Hn Hv.
  set (n := w * w + x * x + y * y + z * z) in *.
  assert (0 < n) as Hpos.
  { destruct (Rlt_dec 0 n) as [Hlt | Hge]; [exact Hlt |].
    exfalso. apply Hv. subst n.
    assert (forall r, r * r <= 0 -> r = 0) as Hz by (intros r Hr; nra).
    repeat split; apply Hz; nra. }
  unfold normalized, qsquaredNorm; cbn [qw qx qy qz]. fold n.
  destruct (Rlt_dec 0 n) as [_ | Hge]; [| contradiction].
  pose proof (sqrt_sqrt n (Rlt_le _ _ Hpos)) as Hs.
  pose proof (sqrt_lt_R0 n Hpos) as Hs0.
  set (s := sqrt n) in *.
  assert (/ s * / s * n = 1) as Ha by (rewrite <- Hs; field; lra).
  unfold toRotationMatrix, Rdiv; cbn [qw qx qy qz].
  set (a := / s) in *.
  intros Heq. injection Heq as E00 _ _ _ E11 _ _ _ E22.
  assert ((y * y + z * z) * (n - 1) = 0) as F0 by nsatz.
  assert ((x * x + z * z) * (n - 1) = 0) as F1 by nsatz.
  assert ((x * x + y * y) * (n - 1) = 0) as F2 by nsatz.
  assert (n - 1 <> 0) as Hn1 by lra.
  apply Rmult_integral in F0, F1, F2.
  destruct F0 as [F0 | F0]; [| contradiction].
  destruct F1 as [F1 | F1]; [| contradiction].
  destruct F2 as [F2 | F2]; [| contradiction].
  apply Hv.
  assert (forall r, r * r <= 0 -> r = 0) as Hz by (intros r Hr; nra).
  repeat split; apply Hz; nra.
Qed.

Section Normalization.
Context {K : Type} {kc : KinematicsClass K} {reader : ConfigReader}.
Local Open Scope string_scope.

(** C3 (amended). The constructor that takes a quaternion normalizes it
    before it builds the reference rotation; the loader builds the
    reference rotation from the four values it read, as they are. For a
    quaternion that is not of norm one and whose vector part [(x, y, z)] is
    not zero the two reference rotations differ; for a quaternion
    [(w, 0, 0, 0)] both are the identity. *)
Theorem C3_normalization_paths :
  forall (filename termName : string) (verbose : bool)
         (storage : TermTaskspacePose K) (out : list (list cout_item))
         (eeInd : nat) (Qrot : R) (Qpos : Matrix3 R) (x_des : Vector3 R)
         (quat_vec : Vector4),
    loadScalarCF_size_t filename "eeId" termName = inr eeInd ->
    loadScalarCF_double filename "Q_rot" termName = inr Qrot ->
    loadMatrixCF_3_3 filename "Q_pos" termName = inr Qpos ->
    loadMatrixCF_3_1 filename "x_des" termName = inr x_des ->
    loadMatrixCF_4_1 filename "quat_des" termName = inr quat_vec ->
    let q := mkQuaternion (c0 quat_vec) (c1 quat_vec) (c2 quat_vec) (c3 quat_vec) in
    snd (ctor_config storage out filename termName verbose)
    = inr (mkTerm eeInd KINEMATICS Qpos Qrot x_des (toRotationMatrix q))
    /\ ctor_quat eeInd Qpos Qrot x_des q
       = mkTerm eeInd KINEMATICS Qpos Qrot x_des (toRotationMatrix (normalized q))
    /\ (qsquaredNorm q <> 1 -> ~ (qx q = 0 /\ qy q = 0 /\ qz q = 0) ->
        toRotationMatrix (normalized q) <> toRotationMatrix q)
    /\ (qx q = 0 -> qy q = 0 -> qz q = 0 ->
        toRotationMatrix (normalized q) = Identity
        /\ toRotationMatrix q = Identity).
Proof.
  intros filename termName verbose storage out eeInd Qrot Qpos x_des quat_vec
         H1 H2 H3 H4 H5 q.
  split; [| split; [reflexivity | split]].
  - unfold ctor_config.
    rewrite (load_quat filename termName verbose _ eeInd Qrot Qpos x_des H1 H2 H3 H4
               quat_vec H5).
    reflexivity.
  - apply toRotationMatrix_normalized_differs.
  - intros Hx Hy Hz.
    destruct (toRotationMatrix_real_quaternion q Hx Hy Hz) as [Ha Hb].
    split; assumption.
Qed.

(** C10 (amended). The constructor that loads a configuration gives the
    term whose every member is the value read, or the error of the first
    read that fails and no term: the outcome depends on the reads alone,
    not on what the storage held, and no default stands in for a field
    that could not be read. [loadConfigFile] on a term that exists stores
    every value as soon as it is read: when a read fails, the members read
    before it hold the new values and the other members are as they were. *)
Theorem C10_loading_outcomes :
  forall (filename termName : string) (verbose : bool),
    (forall (storage : TermTaskspacePose K) (out : list (list cout_item)),
       snd (ctor_config storage out filename termName verbose)
       = read_term filename termName)
    /\ (forall s : machine K,
          let r := loadConfigFile filename termName verbose s in
          (forall e,
             loadScalarCF_size_t filename "eeId" termName = inl e ->
             snd r = inl e /\ this_ (fst r) = this_ s)
          /\ (forall eeInd e,
                loadScalarCF_size_t filename "eeId" termName = inr eeInd ->
                loadScalarCF_double filename "Q_rot" termName = inl e ->
                snd r = inl e /\ this_ (fst r) = set_eeInd eeInd (this_ s))
          /\ (forall eeInd Qrot e,
                loadScalarCF_size_t filename "eeId" termName = inr eeInd ->
                loadScalarCF_double filename "Q_rot" termName = inr Qrot ->
                loadMatrixCF_3_3 filename "Q_pos" termName = inl e ->
                snd r = inl e
                /\ this_ (fst r) = set_Q_rot Qrot (set_eeInd eeInd (this_ s)))
          /\ (forall eeInd Qrot Qpos e,
                loadScalarCF_size_t filename "eeId" termName = inr eeInd ->
                loadScalarCF_double filename "Q_rot" termName = inr Qrot ->
                loadMatrixCF_3_3 filename "Q_pos" termName = inr Qpos ->
                loadMatrixCF_3_1 filename "x_des" termName = inl e ->
                snd r = inl e
                /\ this_ (fst r)
                   = set_Q_pos Qpos (set_Q_rot Qrot (set_eeInd eeInd (this_ s))))
          /\ (forall eeInd Qrot Qpos x_des e e',
                loadScalarCF_size_t filename "eeId" termName = inr eeInd ->
                loadScalarCF_double filename "Q_rot" termName = inr Qrot ->
                loadMatrixCF_3_3 filename "Q_pos" termName = inr Qpos ->
                loadMatrixCF_3_1 filename "x_des" termName = inr x_des ->
                loadMatrixCF_4_1 filename "quat_des" termName = inl e ->
                loadMatrixCF_3_1 filename "eulerXyz_des" termName = inl e' ->
                snd r = inl MissingOrientation
                /\ this_ (fst r)
                   = set_w_p_ref x_des
                       (set_Q_pos Qpos (set_Q_rot Qrot (set_eeInd eeInd (this_ s)))))).
Proof.
  intros filename termName verbose. split.
  - intros storage out. unfold ctor_config, read_term, read_orientation.
    destruct (loadScalarCF_size_t filename "eeId" termName) as [e | eeInd] eqn:H1.
    { rewrite (load_fails_eeId _ _ _ _ e H1). reflexivity. }
    destruct (loadScalarCF_double filename "Q_rot" termName) as [e | Qrot] eqn:H2.
    { rewrite (load_fails_Q_rot _ _ _ _ eeInd e H1 H2). reflexivity. }
    destruct (loadMatrixCF_3_3 filename "Q_pos" termName) as [e | Qpos] eqn:H3.
    { rewrite (load_fails_Q_pos _ _ _ _ eeInd Qrot e H1 H2 H3). reflexivity. }
    destruct (loadMatrixCF_3_1 filename "x_des" termName) as [e | x_des] eqn:H4.
    { rewrite (load_fails_x_des _ _ _ _ eeInd Qrot Qpos e H1 H2 H3 H4). reflexivity. }
    destruct (loadMatrixCF_4_1 filename "quat_des" termName) as [e | quat_vec] eqn:H5.
    + destruct (loadMatrixCF_3_1 filename "eulerXyz_des" termName)
        as [e' | eulerXyz] eqn:H6.
      * rewrite (load_no_orientation _ _ _ _ eeInd Qrot Qpos x_des H1 H2 H3 H4 e e' H5 H6).
        reflexivity.
      * rewrite (load_euler _ _ _ _ eeInd Qrot Qpos x_des H1 H2 H3 H4 e eulerXyz H5 H6).
        reflexivity.
    + rewrite (load_quat _ _ _ _ eeInd Qrot Qpos x_des H1 H2 H3 H4 quat_vec H5).
      reflexivity.
  - intros s r. subst r. split; [| split; [| split; [| split]]].
    + intros e H1.
      rewrite (load_fails_eeId _ _ _ _ e H1). split; reflexivity.
    + intros eeInd e H1 H2.
      rewrite (load_fails_Q_rot _ _ _ _ eeInd e H1 H2). split; reflexivity.
    + intros eeInd Qrot e H1 H2 H3.
      rewrite (load_fails_Q_pos _ _ _ _ eeInd Qrot e H1 H2 H3). split; reflexivity.
    + intros eeInd Qrot Qpos e H1 H2 H3 H4.
      rewrite (load_fails_x_des _ _ _ _ eeInd Qrot Qpos e H1 H2 H3 H4).
      split; reflexivity.
    + intros eeInd Qrot Qpos x_des e e' H1 H2 H3 H4 H5 H6.
      rewrite (load_no_orientation _ _ _ _ eeInd Qrot Qpos x_des H1 H2 H3 H4 e e' H5 H6).
      split; reflexivity.
Qed.
End Normalization.

(** ** State extraction *)

Section StateExtraction.
Context {K : Type} {kc : KinematicsClass K}.
Context {SC : Type} {sc : Scalar SC} {ko : KinematicsOps SC K}.

Lemma segment_length (start n : nat) (x : list SC) :
  (start + n <= List.length x)%nat -> List.length (segment start n x) = n.
Proof.
  intros Hl. unfold segment.
  rewrite length_firstn, length_skipn. lia.
Qed.

Lemma STATE_DIM_appropriate_length (FB : bool) (n : nat) :
  STATE_DIM_appropriate FB n = true ->
  let fb := if FB then 1%nat else 0%nat in
  n = (2 * (fb * 6 + NJOINTS))%nat \/ n = (2 * (fb * 6 + NJOINTS) + 1)%nat.
Proof.
  unfold STATE_DIM_appropriate. intros Hd.
  apply Bool.orb_true_iff in Hd.
  destruct Hd as [Hd | Hd]; apply Nat.eqb_eq in Hd; [left | right]; exact Hd.
Qed.

(** C8 (amended). The extraction of the state is chosen by the template
    parameter [FB] alone. For a floating base the leading 6 entries of the
    state vector decode to the base pose in Euler-XYZ encoding and the next
    [NJOINTS] entries are the joint positions. For a fixed base the entire
    input is the joint state, of which the first [NJOINTS] entries are the
    joint positions, and the base pose is the identity. *)
Theorem C8_state_extraction :
  forall (FB : bool) (x : StateVector SC),
    STATE_DIM_appropriate FB (List.length x) = true ->
    (forall this : TermTaskspacePose K,
       ee_pos FB this x
       = getEEPositionInWorld (kinematics_ this) (eeInd_ this)
           (basePose (setStateFromVector FB x))
           (jointPositions NJOINTS (setStateFromVector FB x))
       /\ ee_rot FB this x
          = getEERotInWorld (kinematics_ this) (eeInd_ this)
              (basePose (setStateFromVector FB x))
              (jointPositions NJOINTS (setStateFromVector FB x)))
    /\ (FB = true ->
        basePose (setStateFromVector FB x) = RigidBodyPose_fromEulerXyz (firstn 6 x)
        /\ jointPositions NJOINTS (setStateFromVector FB x) = segment 6 NJOINTS x)
    /\ (FB = false ->
        joints (setStateFromVector FB x) = x
        /\ jointPositions NJOINTS (setStateFromVector FB x) = firstn NJOINTS x
        /\ basePose (setStateFromVector FB x) = RigidBodyPose_identity).
Proof.
  intros FB x Hdim. split; [| split].
  - intros this. split; reflexivity.
  - intros ->. split; [reflexivity |].
    apply STATE_DIM_appropriate_length in Hdim. cbn zeta in Hdim.
    assert (List.length (segment 6 NJOINTS x) = NJOINTS) as Hs
      by (apply segment_length; lia).
    unfold setStateFromVector, jointPositions, fromStateVectorEulerXyz; cbn [joints].
    rewrite firstn_app, Hs, Nat.sub_diag, firstn_O, app_nil_r.
    rewrite <- Hs at 1. apply firstn_all.
  - intros ->. repeat split.
Qed.
End StateExtraction.

(** ** Clone *)

Section Constructed.
Context {K : Type} {kc : KinematicsClass K} {reader : ConfigReader}.

Local Open Scope string_scope.

Lemma loadConfigFile_kinematics (filename termName : string) (verbose : bool)
    (s : machine K) :
  kinematics_ (this_ (fst (loadConfigFile filename termName verbose s)))
  = kinematics_ (this_ s).
Proof.
  destruct (loadScalarCF_size_t filename "eeId" termName) as [e | eeInd] eqn:H1.
  { rewrite (load_fails_eeId _ _ _ _ e H1). reflexivity. }
  destruct (loadScalarCF_double filename "Q_rot" termName) as [e | Qrot] eqn:H2.
  { rewrite (load_fails_Q_rot _ _ _ _ eeInd e H1 H2). reflexivity. }
  destruct (loadMatrixCF_3_3 filename "Q_pos" termName) as [e | Qpos] eqn:H3.
  { rewrite (load_fails_Q_pos _ _ _ _ eeInd Qrot e H1 H2 H3). reflexivity. }
  destruct (loadMatrixCF_3_1 filename "x_des" termName) as [e | x_des] eqn:H4.
  { rewrite (load_fails_x_des _ _ _ _ eeInd Qrot Qpos e H1 H2 H3 H4). reflexivity. }
  destruct (loadMatrixCF_4_1 filename "quat_des" termName) as [e | quat_vec] eqn:H5.
  - destruct (loadMatrixCF_3_1 filename "eulerXyz_des" termName)
      as [e' | eulerXyz] eqn:H6.
    + rewrite (load_no_orientation _ _ _ _ eeInd Qrot Qpos x_des H1 H2 H3 H4 e e' H5 H6).
      reflexivity.
    + rewrite (load_euler _ _ _ _ eeInd Qrot Qpos x_des H1 H2 H3 H4 e eulerXyz H5 H6).
      reflexivity.
  - rewrite (load_quat _ _ _ _ eeInd Qrot Qpos x_des H1 H2 H3 H4 quat_vec H5).
    reflexivity.
Qed.

Lemma constructed_kinematics (this : TermTaskspacePose K) :
  constructed this -> kinematics_ this = KINEMATICS.
Proof.
  induction 1 as [storage | | | storage out configFile termName verbose this Hc
                 | arg _ _ | this out filename termName verbose _ IH];
    try reflexivity.
  - unfold ctor_config in Hc.
    pose proof (loadConfigFile_kinematics configFile termName verbose
                  (mkMachine (ctor_default storage) out)) as Hk.
    destruct (loadConfigFile configFile termName verbose
                (mkMachine (ctor_default storage) out)) as [s' [e | []]];
      cbn in Hc, Hk; [discriminate |].
    injection Hc as <-. exact Hk.
  - rewrite loadConfigFile_kinematics. exact IH.
Qed.

Context {ADCG : Type} {sc : Scalar ADCG} {ko : KinematicsOps ADCG K}.

(** C9. A clone holds the end-effector index, the position weight, the
    rotation weight, the reference position and the reference rotation of
    its source, by value, and a kinematics of its own, constructed anew.
    The clone of a term the class constructed is that term again, and
    both entry points return on it what they return on the source, for
    every input. *)
Theorem C9_clone :
  forall this : TermTaskspacePose K,
    (eeInd_ (clone this) = eeInd_ this
     /\ Q_pos_ (clone this) = Q_pos_ this
     /\ Q_rot_ (clone this) = Q_rot_ this
     /\ w_p_ref_ (clone this) = w_p_ref_ this
     /\ w_R_ref_ (clone this) = w_R_ref_ this
     /\ kinematics_ (clone this) = KINEMATICS)
    /\ (constructed this ->
        clone this = this
        /\ forall (FB : bool) (x u : list ADCG) (t : ADCG),
             evaluate FB (clone this) x u t = evaluate FB this x u t
             /\ evaluateCppadCg FB (clone this) x u t = evaluateCppadCg FB this x u t).
Proof.
  intros this. split.
  - repeat split.
  - intros Hc.
    assert (clone this = this) as Hsame.
    { apply constructed_kinematics in Hc.
      destruct this as [i k Qp Qr p Rr]; cbn in Hc. subst k. reflexivity. }
    split; [exact Hsame |].
    intros FB x u t. rewrite Hsame. split; reflexivity.
Qed.
End Constructed.

(** ** The entry points and the scalar type *)

Section Naturality.
Context {K : Type} {kc : KinematicsClass K}.
Context {A B : Type} {scA : Scalar A} {scB : Scalar B}.
Context {koA : KinematicsOps A K} {koB : KinematicsOps B K}.
Variable h : A -> B.
Hypothesis h_morphism : ScalarMorphism h.
Hypothesis h_natural : kinematics_natural h.

Lemma coeff_map (x : list A) (i : nat) : coeff (map h x) i = h (coeff x i).
Proof.
  unfold coeff. rewrite <- (morph_cast h h_morphism 0). apply map_nth.
Qed.

Lemma basePose_map (FB : bool) (x : list A) :
  basePose (setStateFromVector (K := K) FB (map h x))
  = pose_map h (basePose (setStateFromVector (K := K) FB x)).
Proof.
  destruct FB; unfold setStateFromVector, fromStateVectorEulerXyz, set_joints,
    RBDState_default; cbn [basePose].
  - unfold RigidBodyPose_fromEulerXyz, pose_map, vmap;
      cbn [pose_eulerXyz pose_position v0 v1 v2].
    rewrite firstn_map, !coeff_map. reflexivity.
  - unfold RigidBodyPose_identity, pose_map, vmap;
      cbn [pose_eulerXyz pose_position v0 v1 v2].
    rewrite !(morph_cast h h_morphism). reflexivity.
Qed.

Lemma jointPositions_map (FB : bool) (x : list A) :
  jointPositions NJOINTS (setStateFromVector (K := K) FB (map h x))
  = map h (jointPositions NJOINTS (setStateFromVector (K := K) FB x)).
Proof.
  destruct FB; unfold jointPositions, setStateFromVector, fromStateVectorEulerXyz,
    set_joints; cbn [joints].
  - unfold segment, tail_n.
    rewrite length_map, !skipn_map, firstn_map, <- map_app, firstn_map.
    reflexivity.
  - apply firstn_map.
Qed.

Lemma evalLocal_natural (FB : bool) (this : TermTaskspacePose K)
    (x u : list A) (t : A) :
  h (evalLocal FB this x u t) = evalLocal FB this (map h x) (map h u) (h t).
Proof.
  unfold evalLocal.
  rewrite basePose_map, jointPositions_map.
  destruct (h_natural (kinematics_ this) (eeInd_ this)
              (basePose (setStateFromVector (K := K) FB x))
              (jointPositions NJOINTS (setStateFromVector (K := K) FB x)))
    as [-> ->].
  destruct h_morphism as [Hadd Hsub Hmul Hsqrt Hcast].
  unfold norm, squaredNorm, msub, mmul, transpose, mcast, Identity, rdot, rmul,
    vtranspose, vsub, vcast, vmap, mmap; cbn.
  repeat first [rewrite Hadd | rewrite Hsub | rewrite Hmul | rewrite Hsqrt
               | rewrite Hcast].
  reflexivity.
Qed.
End Naturality.

Lemma tape_value_morphism (env : nat -> R) : ScalarMorphism (tape_value env).
Proof. split; reflexivity. Qed.

Lemma Column_natural {A B : Type} {scA : Scalar A} {scB : Scalar B} (h : A -> B) :
  ScalarMorphism h -> kinematics_natural (K := Column) h.
Proof.
  intros Hm k i p q. split; cbn.
  - unfold vmap; cbn. rewrite !(morph_cast h Hm), (coeff_map h Hm). reflexivity.
  - unfold mmap, Identity; cbn. rewrite !(morph_cast h Hm). reflexivity.
Qed.

(** On the column, the value of what the formula records on the tape is
    what the formula computes on the values. *)
Lemma evalLocal_tape_value (env : nat -> R) (FB : bool)
    (this : TermTaskspacePose Column) (x u : list tape) (t : tape) :
  tape_value env (evalLocal FB this x u t)
  = evalLocal FB this (map (tape_value env) x) (map (tape_value env) u)
      (tape_value env t).
Proof.
  apply evalLocal_natural.
  - apply tape_value_morphism.
  - apply Column_natural, tape_value_morphism.
Qed.

(** C4 (amended). Both evaluation entry points, [evaluate] and
    [evaluateCppadCg], are declared on the differentiable scalar type
    [ADCGScalar]; the class has no entry point on a plain numeric type.
    Both instantiate the one formula [evalLocal], and return the same value
    on the same input. The formula does not depend on the scalar type it is
    instantiated at: through any map between two scalar types that commutes
    with the operations and with the kinematics, as the value of a
    differentiable scalar does, the two instantiations agree. *)
Theorem C4_entry_points :
  (forall e : entry_point, entry_scalar e = type_ADCGScalar)
  /\ (forall (K : Type) (kc : KinematicsClass K) (ADCG : Type) (sc : Scalar ADCG)
             (ko : KinematicsOps ADCG K) (FB : bool) (this : TermTaskspacePose K)
             (x u : list ADCG) (t : ADCG),
        evaluate FB this x u t = evalLocal FB this x u t
        /\ evaluateCppadCg FB this x u t = evalLocal FB this x u t
        /\ call_entry FB entry_evaluate this x u t
           = call_entry FB entry_evaluateCppadCg this x u t)
  /\ (forall (K : Type) (kc : KinematicsClass K) (A B : Type)
             (scA : Scalar A) (scB : Scalar B)
             (koA : KinematicsOps A K) (koB : KinematicsOps B K) (h : A -> B),
        ScalarMorphism h ->
        kinematics_natural h ->
        forall (FB : bool) (this : TermTaskspacePose K) (x u : list A) (t : A),
          h (evalLocal FB this x u t) = evalLocal FB this (map h x) (map h u) (h t)).
Proof.
  split; [| split].
  - intros []; reflexivity.
  - intros. repeat split.
  - intros K kc A B scA scB koA koB h Hm Hn FB this x u t.
    apply evalLocal_natural; assumption.
Qed.

(** * Counterexamples to the claims as they were stated *)

(** C3, as stated: for the same quaternion that is not of norm one the two
    paths give different reference rotations. The quaternion [(2, 0, 0, 0)]
    is not of norm one, and the term loaded from a configuration that holds
    it is the term the quaternion constructor builds from it. *)
Lemma C3_counterexample :
  qsquaredNorm (mkQuaternion 2 0 0 0) <> 1
  /\ forall storage : TermTaskspacePose Column,
       snd (ctor_config (reader := reader_of_config config_quat_2) storage []
              "term.info" "term0" false)
       = inr (ctor_quat 2 Identity 0.5 (mkVector3 0 0 1) (mkQuaternion 2 0 0 0)).
Proof.
  split.
  - unfold qsquaredNorm; cbn. lra.
  - intros storage. unfold ctor_config.
    rewrite (load_quat (reader := reader_of_config config_quat_2)
               "term.info" "term0" false _ 2%nat 0.5 Identity (mkVector3 0 0 1)
               eq_refl eq_refl eq_refl eq_refl (mkVector4 2 0 0 0) eq_refl).
    unfold ctor_quat, ctor_default; cbn [snd this_ kinematics_ c0 c1 c2 c3].
    destruct (toRotationMatrix_real_quaternion (mkQuaternion 2 0 0 0)
                eq_refl eq_refl eq_refl) as [-> ->].
    reflexivity.
Qed.

(** C4, as stated: the entry points exist for a plain numeric type and for a
    differentiable type. No entry point is declared on [double]. *)
Lemma C4_counterexample : ~ exists e : entry_point, entry_scalar e = type_double.
Proof. intros [[] He]; discriminate He. Qed.

(** C7, as stated: the rotation cost is 0 only when the current rotation is
    the reference rotation. With the rotation weight 0, the reference
    rotation a half turn about Z and the column at rest, the rotation cost
    is 0 while the rotation of the end effector, the identity, is not the
    reference rotation. *)
Lemma C7_counterexample :
  (0 <= Q_rot_ half_turn_term)
  /\ rot_cost false half_turn_term [0; 0] = 0
  /\ ee_rot false half_turn_term [0; 0] <> w_R_ref_ half_turn_term.
Proof.
  split; [cbn; lra | split].
  - unfold rot_cost, half_turn_term, ctor_quat; cbn [Q_rot_].
    cbn [sc_cast sc_mul double_Scalar]. ring.
  - unfold ee_rot, half_turn_term, ctor_quat; cbn [w_R_ref_ kinematics_ eeInd_].
    rewrite normalized_unit by (unfold qsquaredNorm; cbn; ring).
    unfold toRotationMatrix; cbn. unfold Identity; cbn.
    intros Heq. injection Heq as E _. lra.
Qed.

(** C8, as stated: for a fixed base the entire input is the joint
    positions. The column has one joint and a state of two entries, the
    position of the joint and its velocity; the joint positions extracted
    from the state [(1, 2)] are [(1)], not the entire input. *)
Lemma C8_counterexample :
  STATE_DIM_appropriate (K := Column) false (List.length [1; 2]) = true
  /\ jointPositions NJOINTS (setStateFromVector (K := Column) false [1; 2]) = [1]
  /\ jointPositions NJOINTS (setStateFromVector (K := Column) false [1; 2]) <> [1; 2].
Proof.
  split; [reflexivity | split; [reflexivity |]].
  intros Heq. discriminate Heq.
Qed.

(** C10, as stated: a load that fails leaves no partly loaded term to be
    seen. [loadConfigFile] on a term that exists, from a configuration that
    has the end-effector index 5 and no rotation weight, throws, and the
    term is left with the new index and its old other members. *)
Lemma C10_counterexample :
  snd (loadConfigFile (reader := reader_of_config config_only_eeId)
         "term.info" "term0" false (mkMachine example_term []))
  = inl (no_such_node "Q_rot")
  /\ eeInd_ (this_ (fst (loadConfigFile (reader := reader_of_config config_only_eeId)
                           "term.info" "term0" false (mkMachine example_term []))))
     = 5%nat
  /\ Q_rot_ (this_ (fst (loadConfigFile (reader := reader_of_config config_only_eeId)
                           "term.info" "term0" false (mkMachine example_term []))))
     = Q_rot_ example_term
  /\ this_ (fst (loadConfigFile (reader := reader_of_config config_only_eeId)
                   "term.info" "term0" false (mkMachine example_term [])))
     <> example_term.
Proof.
  rewrite (load_fails_Q_rot (reader := reader_of_config config_only_eeId)
             "term.info" "term0" false _ 5%nat (no_such_node "Q_rot") eq_refl eq_refl).
  cbn [fst snd this_]. repeat split.
  intros Heq. apply (f_equal eeInd_) in Heq. discriminate Heq.
Qed.

(** * The theorems at work on the column *)

(** C1 on the column: from height 1.1 to height 1.2 the position error
    doubles and the position cost is multiplied by 4. *)
Lemma C1_evaluate_formula_witness :
  pos_cost false example_term [1.2; 0] = 2 * 2 * pos_cost false example_term [1.1; 0]
  /\ rot_cost false example_term [1.2; 0]
     = Rabs 1 * rot_cost false example_term [1.1; 0].
Proof.
  destruct (C1_evaluate_formula (K := Column) false) as (_ & Hq & Hr).
  split.
  - apply Hq. unfold xDiff, vscale, vsub; cbn. f_equal; lra.
  - apply Hr. unfold ee_rot_diff, ee_rot, mscale, mmap, msub; cbn. f_equal; lra.
Defined.

(** C2 on three configurations: with a quaternion, with Euler angles only,
    with no orientation. *)
Lemma C2_orientation_fallback_witness :
  (let r := loadConfigFile (reader := reader_of_config config_quat_2)
              "term.info" "term0" true (mkMachine example_term []) in
   snd r = inr tt
   /\ w_R_ref_ (this_ (fst r)) = toRotationMatrix (mkQuaternion 2 0 0 0)
   /\ attempts (written (mkMachine example_term []) (fst r)) = [field_quat_des])
  /\ (let r := loadConfigFile (reader := reader_of_config config_euler)
                 "term.info" "term0" false (mkMachine example_term []) in
      snd r = inr tt
      /\ w_R_ref_ (this_ (fst r))
         = mmul (mmul (SpecFormula.Rx PI) (SpecFormula.Ry 0)) (SpecFormula.Rz 0)
      /\ attempts (written (mkMachine example_term []) (fst r))
         = [field_quat_des; field_eulerXyz_des])
  /\ (let r := loadConfigFile (reader := reader_of_config config_no_orientation)
                 "term.info" "term0" false (mkMachine example_term []) in
      snd r = inl MissingOrientation
      /\ w_R_ref_ (this_ (fst r)) = w_R_ref_ example_term
      /\ attempts (written (mkMachine example_term []) (fst r))
         = [field_quat_des; field_eulerXyz_des]).
Proof.
  split; [| split].
  - destruct (C2_orientation_fallback (K := Column)
                (reader := reader_of_config config_quat_2)
                "term.info" "term0" true (mkMachine example_term [])
                2%nat 0.5 Identity (mkVector3 0 0 1)
                eq_refl eq_refl eq_refl eq_refl) as (Hq & _ & _).
    exact (Hq (mkVector4 2 0 0 0) eq_refl).
  - destruct (C2_orientation_fallback (K := Column)
                (reader := reader_of_config config_euler)
                "term.info" "term0" false (mkMachine example_term [])
                2%nat 0.5 Identity (mkVector3 0 0 1)
                eq_refl eq_refl eq_refl eq_refl) as (_ & He & _).
    exact (He (no_such_node "quat_des") (mkVector3 PI 0 0) eq_refl eq_refl).
  - destruct (C2_orientation_fallback (K := Column)
                (reader := reader_of_config config_no_orientation)
                "term.info" "term0" false (mkMachine example_term [])
                2%nat 0.5 Identity (mkVector3 0 0 1)
                eq_refl eq_refl eq_refl eq_refl) as (_ & _ & Hn).
    exact (Hn (no_such_node "quat_des") (no_such_node "eulerXyz_des") eq_refl eq_refl).
Defined.

(** C3 on the quaternion [(0, 2, 0, 0)]: the loader and the constructor
    store different reference rotations. *)
Lemma C3_normalization_paths_witness :
  snd (ctor_config (reader := reader_of_config config_quat_x2) example_term []
         "term.info" "term0" false)
  = inr (mkTerm 2 column Identity 0.5 (mkVector3 0 0 1)
           (toRotationMatrix (mkQuaternion 0 2 0 0)))
  /\ toRotationMatrix (normalized (mkQuaternion 0 2 0 0))
     <> toRotationMatrix (mkQuaternion 0 2 0 0).
Proof.
  destruct (C3_normalization_paths (K := Column)
              (reader := reader_of_config config_quat_x2)
              "term.info" "term0" false example_term [] 2%nat 0.5 Identity
              (mkVector3 0 0 1) (mkVector4 0 2 0 0)
              eq_refl eq_refl eq_refl eq_refl eq_refl) as (Hload & _ & Hdiff & _).
  split; [exact Hload |].
  apply Hdiff.
  - unfold qsquaredNorm; cbn. lra.
  - cbn. intros (Hx & _). lra.
Defined.

(** C4 on the column: the value of the recorded cost is the cost of the
    values. *)
Lemma C4_entry_points_witness :
  tape_value example_env
    (evalLocal (SC := tape) false example_term [tape_var 0; tape_var 1] [] (tape_par 0))
  = evalLocal (SC := R) false example_term [1.1; 0] [] 0.
Proof.
  destruct C4_entry_points as (_ & _ & Hnat).
  exact (Hnat Column _ tape R _ _ _ _ (tape_value example_env)
           (tape_value_morphism example_env)
           (Column_natural _ (tape_value_morphism example_env))
           false example_term [tape_var 0; tape_var 1] [] (tape_par 0)).
Defined.

(** C5 on a half turn about X: the quaternion [(0, 1, 0, 0)] and the Euler
    angles [(PI, 0, 0)] construct the same term. *)
Lemma C5_euler_constructor_witness :
  ctor_quat (K := Column) 2 Identity 0.5 (mkVector3 0 0 1) (mkQuaternion 0 1 0 0)
  = ctor_euler 2 Identity 0.5 (mkVector3 0 0 1) (mkVector3 PI 0 0)
  /\ forall (x u : list R) (t : R),
       evaluate false
         (ctor_quat (K := Column) 2 Identity 0.5 (mkVector3 0 0 1) (mkQuaternion 0 1 0 0))
         x u t
       = evaluate false
           (ctor_euler 2 Identity 0.5 (mkVector3 0 0 1) (mkVector3 PI 0 0)) x u t.
Proof.
  destruct (C5_euler_constructor (K := Column) false 2%nat Identity 0.5
              (mkVector3 0 0 1) (mkVector3 PI 0 0)) as (_ & _ & Hq).
  apply Hq.
  rewrite normalized_unit by (unfold qsquaredNorm; cbn; ring).
  unfold toRotationMatrix, SpecFormula.Rx, SpecFormula.Ry, SpecFormula.Rz, mmul; cbn.
  rewrite cos_PI, sin_PI, cos_0, sin_0. f_equal; ring.
Defined.

(** C6 on the column: the example of the specification. *)
Lemma C6_cost_at_reference_pose_witness :
  evaluate false (mkTerm 2 column Identity 0.5 (mkVector3 0 0 1) Identity) [1; 0] [] 0 = 0
  /\ evaluate false example_term [1; 0] [] 0 = 0
  /\ evaluate false example_term [1.1; 0] [] 0 = 0.01.
Proof.
  destruct (C6_cost_at_reference_pose (K := Column) false) as (Hg & H0 & H1).
  split; [| split].
  - apply Hg; [reflexivity | reflexivity | apply orthonormal_Identity].
  - apply H0; reflexivity.
  - apply H1; reflexivity.
Defined.

(** C7 on the column, with the rotation weight 0.5. *)
Lemma C7_rot_cost_sign_and_zero_witness :
  0 <= rot_cost false example_term [1; 0]
  /\ (rot_cost false example_term [1; 0] = 0
      <-> ee_rot false example_term [1; 0] = w_R_ref_ example_term).
Proof.
  destruct (C7_rot_cost_sign_and_zero (K := Column) false example_term [1; 0])
    as (_ & Hs & Hz).
  split.
  - apply Hs. cbn. lra.
  - apply Hz.
    + cbn. lra.
    + apply orthonormal_Identity.
Defined.

(** C8 on the column, as a fixed-base robot with a state of 2 entries and
    as a floating-base robot with a state of 14 entries. *)
Lemma C8_state_extraction_witness :
  (joints (setStateFromVector (K := Column) false [1; 2]) = [1; 2]
   /\ jointPositions NJOINTS (setStateFromVector (K := Column) false [1; 2])
      = firstn NJOINTS [1; 2]
   /\ basePose (setStateFromVector (K := Column) false [1; 2]) = RigidBodyPose_identity)
  /\ (basePose (setStateFromVector (K := Column) true
                  [0.1; 0.2; 0.3; 4; 5; 6; 7; 0; 0; 0; 0; 0; 0; 0])
      = RigidBodyPose_fromEulerXyz
          (firstn 6 [0.1; 0.2; 0.3; 4; 5; 6; 7; 0; 0; 0; 0; 0; 0; 0])
      /\ jointPositions NJOINTS
           (setStateFromVector (K := Column) true
              [0.1; 0.2; 0.3; 4; 5; 6; 7; 0; 0; 0; 0; 0; 0; 0])
         = segment 6 NJOINTS [0.1; 0.2; 0.3; 4; 5; 6; 7; 0; 0; 0; 0; 0; 0; 0]).
Proof.
  split.
  - destruct (C8_state_extraction (K := Column) (kc := Column_class) (SC := R)
                false [1; 2] eq_refl)
      as (_ & _ & Hfixed).
    exact (Hfixed eq_refl).
  - destruct (C8_state_extraction (K := Column) (kc := Column_class) (SC := R) true
                [0.1; 0.2; 0.3; 4; 5; 6; 7; 0; 0; 0; 0; 0; 0; 0] eq_refl)
      as (_ & Hfloating & _).
    exact (Hfloating eq_refl).
Defined.

(** C9 on the term of the example. *)
Lemma C9_clone_witness :
  clone example_term = example_term
  /\ forall (FB : bool) (x u : list R) (t : R),
       evaluate FB (clone example_term) x u t = evaluate FB example_term x u t
       /\ evaluateCppadCg FB (clone example_term) x u t
          = evaluateCppadCg FB example_term x u t.
Proof.
  destruct (C9_clone (K := Column) (reader := reader_of_config config_quat_2)
              (ADCG := R) example_term) as (_ & Hc).
  apply Hc. apply constructed_quat.
Defined.

(** C10 on a configuration that has the index of the end effector and no
    rotation weight. *)
Lemma C10_loading_outcomes_witness :
  snd (loadConfigFile (reader := reader_of_config config_only_eeId)
         "term.info" "term0" false (mkMachine example_term []))
  = inl (no_such_node "Q_rot")
  /\ this_ (fst (loadConfigFile (reader := reader_of_config config_only_eeId)
                   "term.info" "term0" false (mkMachine example_term [])))
     = set_eeInd 5 example_term.
Proof.
  destruct (C10_loading_outcomes (K := Column)
              (reader := reader_of_config config_only_eeId)
              "term.info" "term0" false) as (_ & Hload).
  destruct (Hload (mkMachine example_term [])) as (_ & Hrot & _).
  exact (Hrot 5%nat (no_such_node "Q_rot") eq_refl eq_refl).
Defined.

(** * Further properties of the loader *)

Section LoaderProperties.
Context {K : Type} {kc : KinematicsClass K} {reader : ConfigReader}.
Local Open Scope string_scope.

Lemma load_members_spec (filename termName : string) (verbose : bool) (s : machine K) :
  (this_ (fst (loadConfigFile filename termName verbose s)),
   snd (loadConfigFile filename termName verbose s))
  = load_members filename termName (this_ s).
Proof.
  unfold load_members, read_orientation.
  destruct (loadScalarCF_size_t filename "eeId" termName) as [e | eeInd] eqn:H1.
  { rewrite (load_fails_eeId _ _ _ _ e H1). reflexivity. }
  destruct (loadScalarCF_double filename "Q_rot" termName) as [e | Qrot] eqn:H2.
  { rewrite (load_fails_Q_rot _ _ _ _ eeInd e H1 H2). reflexivity. }
  destruct (loadMatrixCF_3_3 filename "Q_pos" termName) as [e | Qpos] eqn:H3.
  { rewrite (load_fails_Q_pos _ _ _ _ eeInd Qrot e H1 H2 H3). reflexivity. }
  destruct (loadMatrixCF_3_1 filename "x_des" termName) as [e | x_des] eqn:H4.
  { rewrite (load_fails_x_des _ _ _ _ eeInd Qrot Qpos e H1 H2 H3 H4). reflexivity. }
  destruct (loadMatrixCF_4_1 filename "quat_des" termName) as [e | quat_vec] eqn:H5.
  - destruct (loadMatrixCF_3_1 filename "eulerXyz_des" termName)
      as [e' | eulerXyz] eqn:H6.
    + rewrite (load_no_orientation _ _ _ _ eeInd Qrot Qpos x_des H1 H2 H3 H4 e e' H5 H6).
      reflexivity.
    + rewrite (load_euler _ _ _ _ eeInd Qrot Qpos x_des H1 H2 H3 H4 e eulerXyz H5 H6).
      reflexivity.
  - rewrite (load_quat _ _ _ _ eeInd Qrot Qpos x_des H1 H2 H3 H4 quat_vec H5).
    reflexivity.
Qed.

Lemma load_members_again (filename termName : string) (t : TermTaskspacePose K) :
  load_members filename termName (fst (load_members filename termName t))
  = load_members filename termName t.
Proof.
  unfold load_members.
  destruct (loadScalarCF_size_t filename "eeId" termName) as [e | eeInd] eqn:H1;
    cbn [fst]; rewrite ?H1; [reflexivity |].
  destruct (loadScalarCF_double filename "Q_rot" termName) as [e | Qrot] eqn:H2;
    cbn [fst]; rewrite ?H1, ?H2; [reflexivity |].
  destruct (loadMatrixCF_3_3 filename "Q_pos" termName) as [e | Qpos] eqn:H3;
    cbn [fst]; rewrite ?H1, ?H2, ?H3; [reflexivity |].
  destruct (loadMatrixCF_3_1 filename "x_des" termName) as [e | x_des] eqn:H4;
    cbn [fst]; rewrite ?H1, ?H2, ?H3, ?H4; [reflexivity |].
  destruct (read_orientation filename termName) as [e | Rref] eqn:H5;
    cbn [fst]; rewrite ?H1, ?H2, ?H3, ?H4, ?H5; reflexivity.
Qed.

(** X1. What [loadConfigFile] stores and whether it throws does not depend
    on [verbose], nor on what was written to [std::cout] before: the
    diagnostic output has no influence on the values loaded. *)
Theorem X1_verbose_has_no_influence :
  forall (filename termName : string) (verbose verbose' : bool) (s s' : machine K),
    this_ s = this_ s' ->
    this_ (fst (loadConfigFile filename termName verbose s))
    = this_ (fst (loadConfigFile filename termName verbose' s'))
    /\ snd (loadConfigFile filename termName verbose s)
       = snd (loadConfigFile filename termName verbose' s').
Proof.
  intros filename termName verbose verbose' s s' Hs.
  pose proof (load_members_spec filename termName verbose s) as H1.
  pose proof (load_members_spec filename termName verbose' s') as H2.
  rewrite <- Hs, <- H1 in H2. injection H2 as Ht Hr.
  split; congruence.
Qed.

(** X2. Loading the same configuration a second time changes nothing: after
    [loadConfigFile], whether it completed or threw, a second
    [loadConfigFile] leaves every member as the first left it and has the
    outcome of the first. *)
Theorem X2_load_twice :
  forall (filename termName : string) (verbose verbose' : bool) (s : machine K),
    let s1 := fst (loadConfigFile filename termName verbose s) in
    this_ (fst (loadConfigFile filename termName verbose' s1)) = this_ s1
    /\ snd (loadConfigFile filename termName verbose' s1)
       = snd (loadConfigFile filename termName verbose s).
Proof.
  intros filename termName verbose verbose' s s1.
  pose proof (load_members_spec filename termName verbose s) as H1.
  pose proof (load_members_spec filename termName verbose' s1) as H2.
  assert (this_ s1 = fst (load_members filename termName (this_ s))) as Hs1
    by (rewrite <- H1; reflexivity).
  rewrite Hs1, load_members_again, <- H1 in H2.
  injection H2 as Ht Hr. split; [| exact Hr].
  rewrite Ht. reflexivity.
Qed.

(** X3. A load that completes sets all five data members: two terms with
    the same kinematics are the same term after the same configuration was
    loaded into both. *)
Theorem X3_load_overwrites_every_member :
  forall (filename termName : string) (verbose verbose' : bool) (s s' : machine K),
    kinematics_ (this_ s) = kinematics_ (this_ s') ->
    snd (loadConfigFile filename termName verbose s) = inr tt ->
    snd (loadConfigFile filename termName verbose' s') = inr tt
    /\ this_ (fst (loadConfigFile filename termName verbose s))
       = this_ (fst (loadConfigFile filename termName verbose' s')).
Proof.
  intros filename termName verbose verbose' s s' Hk Hok.
  pose proof (load_members_spec filename termName verbose s) as H1.
  pose proof (load_members_spec filename termName verbose' s') as H2.
  rewrite Hok in H1.
  destruct (loadConfigFile filename termName verbose s) as [s1 r1].
  destruct (loadConfigFile filename termName verbose' s') as [s2 r2].
  cbn [fst snd] in *.
  unfold load_members in H1, H2.
  destruct (loadScalarCF_size_t filename "eeId" termName); [discriminate H1 |].
  destruct (loadScalarCF_double filename "Q_rot" termName); [discriminate H1 |].
  destruct (loadMatrixCF_3_3 filename "Q_pos" termName); [discriminate H1 |].
  destruct (loadMatrixCF_3_1 filename "x_des" termName); [discriminate H1 |].
  destruct (read_orientation filename termName); [discriminate H1 |].
  injection H1 as ->. injection H2 as -> ->.
  split; [reflexivity |].
  unfold set_w_R_ref, set_w_p_ref, set_Q_pos, set_Q_rot, set_eeInd; cbn.
  rewrite Hk. reflexivity.
Qed.

(** X4. A load that is not verbose is not silent. It writes nothing when
    one of the four required reads fails; otherwise it writes the line
    "trying to load quaternion", followed by the line "trying to load euler
    angles" when the read of the quaternion failed. *)
Theorem X4_quiet_load_output :
  forall (filename termName : string) (s : machine K),
    written s (fst (loadConfigFile filename termName false s))
    = quiet_output filename termName.
Proof.
  intros filename termName s. unfold quiet_output, written.
  destruct (loadScalarCF_size_t filename "eeId" termName) as [e | eeInd] eqn:H1.
  { rewrite (load_fails_eeId _ _ _ _ e H1). cbn [fst cout].
    apply skipn_length_app. }
  destruct (loadScalarCF_double filename "Q_rot" termName) as [e | Qrot] eqn:H2.
  { rewrite (load_fails_Q_rot _ _ _ _ eeInd e H1 H2). cbn [fst cout].
    apply skipn_length_app. }
  destruct (loadMatrixCF_3_3 filename "Q_pos" termName) as [e | Qpos] eqn:H3.
  { rewrite (load_fails_Q_pos _ _ _ _ eeInd Qrot e H1 H2 H3). cbn [fst cout].
    apply skipn_length_app. }
  destruct (loadMatrixCF_3_1 filename "x_des" termName) as [e | x_des] eqn:H4.
  { rewrite (load_fails_x_des _ _ _ _ eeInd Qrot Qpos e H1 H2 H3 H4). cbn [fst cout].
    apply skipn_length_app. }
  destruct (loadMatrixCF_4_1 filename "quat_des" termName) as [e | quat_vec] eqn:H5.
  - destruct (loadMatrixCF_3_1 filename "eulerXyz_des" termName)
      as [e' | eulerXyz] eqn:H6.
    + rewrite (load_no_orientation _ _ _ _ eeInd Qrot Qpos x_des H1 H2 H3 H4 e e' H5 H6).
      cbn [fst cout]. apply skipn_length_app.
    + rewrite (load_euler _ _ _ _ eeInd Qrot Qpos x_des H1 H2 H3 H4 e eulerXyz H5 H6).
      cbn [fst cout]. apply skipn_length_app.
  - rewrite (load_quat _ _ _ _ eeInd Qrot Qpos x_des H1 H2 H3 H4 quat_vec H5).
    cbn [fst cout]. apply skipn_length_app.
Qed.

(** X5. Loading Euler angles gives the term the Euler constructor builds
    from the values read; loading a quaternion of norm one gives the term
    the quaternion constructor builds from the values read. *)
Theorem X5_load_agrees_with_constructors :
  forall (filename termName : string) (verbose : bool)
         (storage : TermTaskspacePose K) (out : list (list cout_item))
         (eeInd : nat) (Qrot : R) (Qpos : Matrix3 R) (x_des : Vector3 R),
    loadScalarCF_size_t filename "eeId" termName = inr eeInd ->
    loadScalarCF_double filename "Q_rot" termName = inr Qrot ->
    loadMatrixCF_3_3 filename "Q_pos" termName = inr Qpos ->
    loadMatrixCF_3_1 filename "x_des" termName = inr x_des ->
    (forall (e : exception) (eulerXyz : Vector3 R),
       loadMatrixCF_4_1 filename "quat_des" termName = inl e ->
       loadMatrixCF_3_1 filename "eulerXyz_des" termName = inr eulerXyz ->
       snd (ctor_config storage out filename termName verbose)
       = inr (ctor_euler eeInd Qpos Qrot x_des eulerXyz))
    /\ (forall quat_vec : Vector4,
          loadMatrixCF_4_1 filename "quat_des" termName = inr quat_vec ->
          let q := mkQuaternion (c0 quat_vec) (c1 quat_vec) (c2 quat_vec) (c3 quat_vec) in
          qsquaredNorm q = 1 ->
          snd (ctor_config storage out filename termName verbose)
          = inr (ctor_quat eeInd Qpos Qrot x_des q)).
Proof.
  intros filename termName verbose storage out eeInd Qrot Qpos x_des H1 H2 H3 H4.
  split.
  - intros e eulerXyz H5 H6. unfold ctor_config.
    rewrite (load_euler _ _ _ _ eeInd Qrot Qpos x_des H1 H2 H3 H4 e eulerXyz H5 H6).
    cbn [snd this_]. unfold ctor_euler, ctor_quat, ctor_default; cbn [kinematics_].
    rewrite normalized_unit by apply quat_of_eulerXyz_unit. reflexivity.
  - intros quat_vec H5 q Hq. unfold ctor_config.
    rewrite (load_quat _ _ _ _ eeInd Qrot Qpos x_des H1 H2 H3 H4 quat_vec H5).
    cbn [snd this_]. unfold ctor_quat, ctor_default; cbn [kinematics_].
    rewrite normalized_unit by exact Hq. reflexivity.
Qed.
End LoaderProperties.

(** * Further properties of the reference rotation *)

Lemma qsquaredNorm_zero (q : Quaternion) :
  ~ 0 < qsquaredNorm q -> qw q = 0 /\ qx q = 0 /\ qy q = 0 /\ qz q = 0.
Proof.
  destruct q as [w x y z]. unfold qsquaredNorm; cbn. intros Hn.
  assert (forall r, r * r <= 0 -> r = 0) as Hz by (intros r Hr; nra).
  repeat split; apply Hz; nra.
Qed.

Lemma toRotationMatrix_normalized_orthonormal (q : Quaternion) :
  orthonormal (toRotationMatrix (normalized q)).
Proof.
  destruct (Rlt_dec 0 (qsquaredNorm q)) as [Hpos | Hzero].
  - apply toRotationMatrix_orthonormal, normalized_norm, Hpos.
  - destruct (qsquaredNorm_zero q Hzero) as (_ & Hx & Hy & Hz).
    destruct (toRotationMatrix_real_quaternion q Hx Hy Hz) as [_ ->].
    apply orthonormal_Identity.
Qed.

Lemma toRotationMatrix_gram_diagonal (q : Quaternion) :
  let M := toRotationMatrix q in
  let n := qsquaredNorm q in
  m00 (mmul (transpose M) M) = 1 + 4 * (n - 1) * (qy q * qy q + qz q * qz q)
  /\ m11 (mmul (transpose M) M) = 1 + 4 * (n - 1) * (qx q * qx q + qz q * qz q)
  /\ m22 (mmul (transpose M) M) = 1 + 4 * (n - 1) * (qx q * qx q + qy q * qy q).
Proof.
  destruct q as [w x y z].
  unfold toRotationMatrix, qsquaredNorm, mmul, transpose; cbn.
  repeat split; ring.
Qed.

Lemma toRotationMatrix_orthonormal_iff (q : Quaternion) :
  orthonormal (toRotationMatrix q)
  <-> qsquaredNorm q = 1 \/ (qx q = 0 /\ qy q = 0 /\ qz q = 0).
Proof.
  split.
  - intros [Hl _].
    destruct (toRotationMatrix_gram_diagonal q) as (G0 & G1 & G2).
    cbn zeta in G0, G1, G2. rewrite Hl in G0, G1, G2.
    unfold Identity in G0, G1, G2; cbn in G0, G1, G2.
    destruct (Req_dec (qsquaredNorm q) 1) as [Hn | Hn]; [left; exact Hn | right].
    assert (qsquaredNorm q - 1 <> 0) as Hn1 by lra.
    assert ((qsquaredNorm q - 1) * (qy q * qy q + qz q * qz q) = 0) as F0 by lra.
    assert ((qsquaredNorm q - 1) * (qx q * qx q + qz q * qz q) = 0) as F1 by lra.
    assert ((qsquaredNorm q - 1) * (qx q * qx q + qy q * qy q) = 0) as F2 by lra.
    apply Rmult_integral in F0, F1, F2.
    destruct F0 as [F0 | F0]; [contradiction |].
    destruct F1 as [F1 | F1]; [contradiction |].
    destruct F2 as [F2 | F2]; [contradiction |].
    assert (forall r, r * r <= 0 -> r = 0) as Hz by (intros r Hr; nra).
    repeat split; apply Hz; nra.
  - intros [Hn | (Hx & Hy & Hz)].
    + apply toRotationMatrix_orthonormal, Hn.
    + destruct (toRotationMatrix_real_quaternion q Hx Hy Hz) as [-> _].
      apply orthonormal_Identity.
Qed.

Lemma toRotationMatrix_normalized_qscale (k : R) (q : Quaternion) :
  k <> 0 ->
  toRotationMatrix (normalized (qscale k q)) = toRotationMatrix (normalized q).
Proof.
  intros Hk.
  assert (qsquaredNorm (qscale k q) = k * k * qsquaredNorm q) as Hn
    by (unfold qsquaredNorm, qscale; cbn; ring).
  assert (0 < k * k) as Hkk by nra.
  destruct (Rlt_dec 0 (qsquaredNorm q)) as [Hpos | Hzero].
  - unfold normalized. rewrite Hn.
    destruct (Rlt_dec 0 (k * k * qsquaredNorm q)) as [_ | Hc]; [| exfalso; nra].
    destruct (Rlt_dec 0 (qsquaredNorm q)) as [_ | Hc]; [| contradiction].
    rewrite sqrt_mult by lra.
    replace (k * k) with (Rsqr k) by reflexivity. rewrite sqrt_Rsqr_abs.
    pose proof (sqrt_lt_R0 _ Hpos) as Hs.
    pose proof (Rabs_pos_lt k Hk) as Ha.
    assert (Rabs k * Rabs k = k * k) as Haa
      by (rewrite <- Rabs_mult; apply Rabs_pos_eq; lra).
    set (s := sqrt (qsquaredNorm q)) in *. set (a := Rabs k) in *.
    assert (/ a * a = 1) as Hia by (field; lra).
    unfold toRotationMatrix, qscale, Rdiv; cbn [qw qx qy qz].
    rewrite !Rinv_mult.
    set (ia := / a) in *. set (js := / s).
    destruct q as [w x y z]; cbn [qw qx qy qz].
    apply Matrix3_eq; cbn; nsatz.
  - destruct (qsquaredNorm_zero q Hzero) as (Hw & Hx & Hy & Hz).
    destruct (toRotationMatrix_real_quaternion q Hx Hy Hz) as [_ ->].
    apply (toRotationMatrix_real_quaternion (qscale k q));
      unfold qscale; cbn; rewrite ?Hx, ?Hy, ?Hz; ring.
Qed.

Lemma Rx_period (a : R) : SpecFormula.Rx (a + 2 * PI) = SpecFormula.Rx a.
Proof.
  unfold SpecFormula.Rx. rewrite cos_plus, sin_plus, cos_2PI, sin_2PI.
  f_equal; ring.
Qed.

Lemma Ry_period (a : R) : SpecFormula.Ry (a + 2 * PI) = SpecFormula.Ry a.
Proof.
  unfold SpecFormula.Ry. rewrite cos_plus, sin_plus, cos_2PI, sin_2PI.
  f_equal; ring.
Qed.

Lemma Rz_period (a : R) : SpecFormula.Rz (a + 2 * PI) = SpecFormula.Rz a.
Proof.
  unfold SpecFormula.Rz. rewrite cos_plus, sin_plus, cos_2PI, sin_2PI.
  f_equal; ring.
Qed.

Section ReferenceRotation.
Context {K : Type} {kc : KinematicsClass K} {reader : ConfigReader}.
Local Open Scope string_scope.

Lemma ctor_euler_reference (eeInd : nat) (Qpos : Matrix3 R) (Qrot : R)
    (w_pos_des e : Vector3 R) :
  ctor_euler eeInd Qpos Qrot w_pos_des e
  = mkTerm eeInd KINEMATICS Qpos Qrot w_pos_des
      (mmul (mmul (SpecFormula.Rx (v0 e)) (SpecFormula.Ry (v1 e)))
            (SpecFormula.Rz (v2 e))).
Proof.
  unfold ctor_euler, ctor_quat.
  rewrite normalized_unit by apply quat_of_eulerXyz_unit.
  rewrite toRotationMatrix_quat_of_eulerXyz. reflexivity.
Qed.

(** X6. The reference rotation the quaternion constructor stores is
    orthonormal for every quaternion it is given, the zero quaternion
    included, and so is the one the Euler constructor stores. *)
Theorem X6_constructors_store_a_rotation :
  forall (eeInd : nat) (Qpos : Matrix3 R) (Qrot : R) (w_pos_des : Vector3 R),
    (forall w_q_des : Quaternion,
       orthonormal (w_R_ref_ (ctor_quat eeInd Qpos Qrot w_pos_des w_q_des)))
    /\ (forall eulerXyz : Vector3 R,
          orthonormal (w_R_ref_ (ctor_euler eeInd Qpos Qrot w_pos_des eulerXyz))).
Proof.
  intros eeInd Qpos Qrot w_pos_des. split.
  - intros q. unfold ctor_quat; cbn [w_R_ref_].
    apply toRotationMatrix_normalized_orthonormal.
  - intros e. unfold ctor_euler, ctor_quat; cbn [w_R_ref_].
    apply toRotationMatrix_normalized_orthonormal.
Qed.

(** X7. The reference rotation a load stores from a quaternion is
    orthonormal if and only if the quaternion read is of norm one or its
    vector part [(x, y, z)] is zero: the loader stores a matrix that is not a
    rotation for any other quaternion. *)
Theorem X7_loaded_quaternion_rotation :
  forall (filename termName : string) (verbose : bool) (s : machine K)
         (eeInd : nat) (Qrot : R) (Qpos : Matrix3 R) (x_des : Vector3 R)
         (quat_vec : Vector4),
    loadScalarCF_size_t filename "eeId" termName = inr eeInd ->
    loadScalarCF_double filename "Q_rot" termName = inr Qrot ->
    loadMatrixCF_3_3 filename "Q_pos" termName = inr Qpos ->
    loadMatrixCF_3_1 filename "x_des" termName = inr x_des ->
    loadMatrixCF_4_1 filename "quat_des" termName = inr quat_vec ->
    orthonormal (w_R_ref_ (this_ (fst (loadConfigFile filename termName verbose s))))
    <-> (c0 quat_vec * c0 quat_vec + c1 quat_vec * c1 quat_vec
         + c2 quat_vec * c2 quat_vec + c3 quat_vec * c3 quat_vec = 1
         \/ (c1 quat_vec = 0 /\ c2 quat_vec = 0 /\ c3 quat_vec = 0)).
Proof.
  intros filename termName verbose s eeInd Qrot Qpos x_des quat_vec H1 H2 H3 H4 H5.
  rewrite (load_quat _ _ _ _ eeInd Qrot Qpos x_des H1 H2 H3 H4 quat_vec H5).
  cbn [fst this_ w_R_ref_].
  apply toRotationMatrix_orthonormal_iff.
Qed.

(** X8. The quaternion constructor does not depend on the scale nor on the
    sign of the quaternion: a quaternion and any multiple of it other than
    zero construct the same term. *)
Theorem X8_quaternion_scale :
  forall (eeInd : nat) (Qpos : Matrix3 R) (Qrot : R) (w_pos_des : Vector3 R)
         (w_q_des : Quaternion) (k : R),
    k <> 0 ->
    ctor_quat eeInd Qpos Qrot w_pos_des (qscale k w_q_des)
    = ctor_quat eeInd Qpos Qrot w_pos_des w_q_des.
Proof.
  intros eeInd Qpos Qrot w_pos_des q k Hk. unfold ctor_quat.
  rewrite toRotationMatrix_normalized_qscale by exact Hk. reflexivity.
Qed.

(** X9. The Euler constructor is periodic: a full turn added to any of the
    three angles constructs the same term, although it changes the sign of
    the quaternion the constructor goes through. *)
Theorem X9_euler_full_turn :
  forall (eeInd : nat) (Qpos : Matrix3 R) (Qrot : R) (w_pos_des : Vector3 R)
         (roll pitch yaw : R),
    ctor_euler eeInd Qpos Qrot w_pos_des (mkVector3 (roll + 2 * PI) pitch yaw)
    = ctor_euler eeInd Qpos Qrot w_pos_des (mkVector3 roll pitch yaw)
    /\ ctor_euler eeInd Qpos Qrot w_pos_des (mkVector3 roll (pitch + 2 * PI) yaw)
       = ctor_euler eeInd Qpos Qrot w_pos_des (mkVector3 roll pitch yaw)
    /\ ctor_euler eeInd Qpos Qrot w_pos_des (mkVector3 roll pitch (yaw + 2 * PI))
       = ctor_euler eeInd Qpos Qrot w_pos_des (mkVector3 roll pitch yaw)
    /\ quat_of_eulerXyz (mkVector3 (roll + 2 * PI) pitch yaw)
       = qscale (-1) (quat_of_eulerXyz (mkVector3 roll pitch yaw)).
Proof.
  intros eeInd Qpos Qrot w_pos_des roll pitch yaw.
  rewrite !ctor_euler_reference; cbn [v0 v1 v2].
  rewrite Rx_period, Ry_period, Rz_period.
  repeat split.
  unfold quat_of_eulerXyz, qaamul, aamul, qmul, Quaternion_of_AngleAxis, qscale,
    UnitX, UnitY, UnitZ; cbn.
  replace (0.5 * (roll + 2 * PI)) with (0.5 * roll + PI) by lra.
  rewrite cos_plus, sin_plus, cos_PI, sin_PI. f_equal; ring.
Qed.
End ReferenceRotation.

(** * Further properties of the cost *)

Lemma Vector3_eq_dec (a b : Vector3 R) : a = b \/ a <> b.
Proof.
  destruct a as [a0 a1 a2], b as [b0 b1 b2].
  destruct (Req_dec a0 b0) as [-> | H0]; [| right; intros E; injection E; intros; lra].
  destruct (Req_dec a1 b1) as [-> | H1]; [| right; intros E; injection E; intros; lra].
  destruct (Req_dec a2 b2) as [-> | H2]; [| right; intros E; injection E; intros; lra].
  left; reflexivity.
Qed.

Lemma vsub_zero_iff (a b : Vector3 R) : vsub a b = mkVector3 0 0 0 <-> a = b.
Proof.
  destruct a as [a0 a1 a2], b as [b0 b1 b2]. unfold vsub; cbn. split.
  - intros E. injection E as E0 E1 E2. f_equal; lra.
  - intros E. injection E as -> -> ->. f_equal; ring.
Qed.

Lemma quadratic_form_zero (W : Matrix3 R) : quadratic_form W (mkVector3 0 0 0) = 0.
Proof. unfold quadratic_form, rdot, rmul, vtranspose; cbn. ring. Qed.

Lemma positive_definite_semidefinite (W : Matrix3 R) :
  positive_definite W -> positive_semidefinite W.
Proof.
  intros Hpd e.
  destruct (Vector3_eq_dec e (mkVector3 0 0 0)) as [-> | Hne].
  - rewrite quadratic_form_zero. lra.
  - apply Rlt_le, Hpd, Hne.
Qed.

Lemma positive_definite_Identity : positive_definite Identity.
Proof.
  intros [e0 e1 e2] Hne.
  unfold quadratic_form, rdot, rmul, vtranspose, Identity; cbn.
  assert (e0 <> 0 \/ e1 <> 0 \/ e2 <> 0) as Hc.
  { destruct (Req_dec e0 0) as [-> | H0]; [| left; exact H0].
    destruct (Req_dec e1 0) as [-> | H1]; [| right; left; exact H1].
    destruct (Req_dec e2 0) as [-> | H2]; [| right; right; exact H2].
    exfalso. apply Hne. reflexivity. }
  destruct Hc as [Hc | [Hc | Hc]]; nra.
Qed.

Lemma squaredNorm_sub_Identity (D : Matrix3 R) :
  mmul (transpose D) D = Identity ->
  squaredNorm (msub D Identity) = 6 - 2 * trace D.
Proof.
  destruct D as [a b c d e f g h i].
  unfold mmul, transpose, Identity, squaredNorm, msub, trace; cbn.
  intros E. injection E as E00 _ _ _ E11 _ _ _ E22. nra.
Qed.

Lemma transpose_mmul (a b : Matrix3 R) :
  transpose (mmul a b) = mmul (transpose b) (transpose a).
Proof. unfold transpose, mmul; cbn. f_equal; ring. Qed.

Lemma relative_rotation_orthonormal (a b : Matrix3 R) :
  orthonormal a -> orthonormal b ->
  mmul (transpose (mmul (transpose a) b)) (mmul (transpose a) b) = Identity.
Proof.
  intros [_ Har] [Hbl _].
  rewrite transpose_mmul, transpose_involutive, mmul_assoc.
  rewrite <- (mmul_assoc a (transpose a) b), Har, mmul_Identity_l. exact Hbl.
Qed.

Lemma trace_transpose (a : Matrix3 R) : trace (transpose a) = trace a.
Proof. reflexivity. Qed.

Lemma squaredNorm_quaternion_rotation (q : Quaternion) :
  qsquaredNorm q = 1 ->
  squaredNorm (msub (toRotationMatrix q) Identity)
  = 8 * (qx q * qx q + qy q * qy q + qz q * qz q).
Proof.
  destruct q as [w x y z].
  unfold qsquaredNorm, toRotationMatrix, squaredNorm, msub, Identity; cbn.
  intros Hq. nsatz.
Qed.

Section CostProperties.
Context {K : Type} {kc : KinematicsClass K} {ko : KinematicsOps R K}.
Variable FB : bool.

Lemma pos_cost_quadratic_form (this : TermTaskspacePose K) (x : list R) :
  pos_cost FB this x = quadratic_form (Q_pos_ this) (xDiff FB this x).
Proof. unfold pos_cost, quadratic_form. rewrite mcast_double. reflexivity. Qed.

Lemma rot_cost_nonneg (this : TermTaskspacePose K) (x : list R) :
  0 <= Q_rot_ this -> 0 <= rot_cost FB this x.
Proof.
  intros Hw. unfold rot_cost.
  pose proof (norm_nonneg (msub (ee_rot_diff FB this x) Identity)) as Hn.
  cbn. cbn in Hn. nra.
Qed.

Lemma rot_cost_zero_iff_rotation (this : TermTaskspacePose K) (x : list R) :
  0 < Q_rot_ this ->
  orthonormal (ee_rot FB this x) ->
  rot_cost FB this x = 0 <-> ee_rot FB this x = w_R_ref_ this.
Proof.
  intros Hw [Hl Hr]. split.
  - intros Hc. apply rot_cost_zero_diff in Hc; [| exact Hw].
    apply (f_equal (fun m => mmul m (transpose (ee_rot FB this x)))) in Hc.
    rewrite mmul_assoc, Hr, mmul_Identity_r, mmul_Identity_l in Hc.
    rewrite <- (transpose_involutive (ee_rot FB this x)),
            <- (transpose_involutive (w_R_ref_ this)).
    rewrite Hc. reflexivity.
  - intros Hrot. apply rot_cost_zero_at_reference; [exact Hrot |].
    rewrite <- Hrot. exact Hl.
Qed.

(** X10. With a positive semidefinite position weight and a rotation weight
    that is not negative the cost is never negative. With a positive
    definite position weight and a positive rotation weight the cost is 0
    only at the reference pose: [evaluate] returns 0 if and only if the
    position of the end effector is the reference position and its
    rotation, a rotation matrix, is the reference rotation. *)
Theorem X10_cost_zero_only_at_reference :
  forall (this : TermTaskspacePose K) (x u : list R) (t : R),
    (positive_semidefinite (Q_pos_ this) -> 0 <= Q_rot_ this ->
     0 <= evaluate FB this x u t)
    /\ (positive_definite (Q_pos_ this) -> 0 < Q_rot_ this ->
        orthonormal (ee_rot FB this x) ->
        (evaluate FB this x u t = 0
         <-> ee_pos FB this x = w_p_ref_ this /\ ee_rot FB this x = w_R_ref_ this)).
Proof.
  intros this x u t. unfold evaluate. rewrite evalLocal_split. split.
  - intros Hpsd Hw.
    pose proof (Hpsd (xDiff FB this x)) as Hp.
    rewrite <- pos_cost_quadratic_form in Hp.
    pose proof (rot_cost_nonneg this x Hw) as Hr. lra.
  - intros Hpd Hw Horth.
    pose proof (positive_definite_semidefinite _ Hpd (xDiff FB this x)) as Hp.
    rewrite <- pos_cost_quadratic_form in Hp.
    pose proof (rot_cost_nonneg this x (Rlt_le _ _ Hw)) as Hr.
    split.
    + intros Hz.
      assert (pos_cost FB this x = 0) as Hp0 by lra.
      assert (rot_cost FB this x = 0) as Hr0 by lra.
      split.
      * destruct (Vector3_eq_dec (xDiff FB this x) (mkVector3 0 0 0)) as [Hd | Hd].
        -- unfold xDiff in Hd. rewrite vcast_double in Hd.
           apply (proj1 (vsub_zero_iff _ _)) in Hd. exact Hd.
        -- apply Hpd in Hd. rewrite <- pos_cost_quadratic_form in Hd. lra.
      * apply rot_cost_zero_iff_rotation; assumption.
    + intros [Hpos Hrot].
      rewrite pos_cost_zero_at_reference by exact Hpos.
      assert (rot_cost FB this x = 0) as Hr0
        by (apply rot_cost_zero_iff_rotation; assumption).
      lra.
Qed.

(** X11. Between two rotations the rotation cost is a function of the
    trace of the relative rotation: with an orthonormal reference rotation
    and an orthonormal rotation of the end effector it is
    [Wrot * sqrt(6 - 2 * trace(referenceRotation^T * currentRotation))].
    It is therefore symmetric: a term evaluated at a rotation costs what a
    term of the same rotation weight whose reference is that rotation
    costs at the reference of the first. *)
Theorem X11_rot_cost_trace :
  forall (this : TermTaskspacePose K) (x : list R),
    orthonormal (w_R_ref_ this) ->
    orthonormal (ee_rot FB this x) ->
    rot_cost FB this x
    = Q_rot_ this * sqrt (6 - 2 * trace (mmul (transpose (w_R_ref_ this)) (ee_rot FB this x)))
    /\ forall (this' : TermTaskspacePose K) (x' : list R),
         Q_rot_ this' = Q_rot_ this ->
         w_R_ref_ this' = ee_rot FB this x ->
         ee_rot FB this' x' = w_R_ref_ this ->
         rot_cost FB this' x' = rot_cost FB this x.
Proof.
  intros this x Href Hcur.
  assert (forall (a : TermTaskspacePose K) (y : list R),
            orthonormal (w_R_ref_ a) -> orthonormal (ee_rot FB a y) ->
            rot_cost FB a y
            = Q_rot_ a * sqrt (6 - 2 * trace (mmul (transpose (w_R_ref_ a)) (ee_rot FB a y))))
    as Hform.
  { intros a y Ha Hy. unfold rot_cost, ee_rot_diff, norm. rewrite mcast_double.
    rewrite squaredNorm_sub_Identity by (apply relative_rotation_orthonormal; assumption).
    reflexivity. }
  split; [apply Hform; assumption |].
  intros this' x' Hw Hr' Hc'.
  rewrite (Hform this x Href Hcur).
  rewrite (Hform this' x') by (rewrite ?Hr', ?Hc'; assumption).
  rewrite Hw, Hr', Hc'.
  rewrite <- (trace_transpose (mmul (transpose (w_R_ref_ this)) (ee_rot FB this x))).
  rewrite transpose_mmul, transpose_involutive. reflexivity.
Qed.

(** X12. When the end effector is turned away from an orthonormal reference
    rotation by the rotation of a quaternion of norm one, the rotation cost
    is [Wrot * sqrt(8 * (x*x + y*y + z*z))], the vector part of the
    quaternion: for a turn of angle [a] about a unit axis this is
    [Wrot * sqrt(8) * |sin(a/2)|]. With a rotation weight that is not
    negative it never exceeds [Wrot * sqrt(8)]. *)
Theorem X12_rot_cost_of_a_turn :
  forall (this : TermTaskspacePose K) (x : list R) (q : Quaternion),
    orthonormal (w_R_ref_ this) ->
    qsquaredNorm q = 1 ->
    ee_rot FB this x = mmul (w_R_ref_ this) (toRotationMatrix q) ->
    rot_cost FB this x
    = Q_rot_ this * sqrt (8 * (qx q * qx q + qy q * qy q + qz q * qz q))
    /\ (0 <= Q_rot_ this -> rot_cost FB this x <= Q_rot_ this * sqrt 8)
    /\ (forall (a : R) (n : Vector3 R),
          v0 n * v0 n + v1 n * v1 n + v2 n * v2 n = 1 ->
          q = Quaternion_of_AngleAxis (mkAngleAxis a n) ->
          rot_cost FB this x = Q_rot_ this * (sqrt 8 * Rabs (sin (0.5 * a)))).
Proof.
  intros this x q [Hl _] Hq Hrot.
  assert (rot_cost FB this x
          = Q_rot_ this * sqrt (8 * (qx q * qx q + qy q * qy q + qz q * qz q))) as Hform.
  { unfold rot_cost, ee_rot_diff, norm. rewrite mcast_double, Hrot.
    rewrite <- mmul_assoc, Hl, mmul_Identity_l.
    rewrite squaredNorm_quaternion_rotation by exact Hq. reflexivity. }
  split; [exact Hform | split].
  - intros Hw. rewrite Hform.
    apply Rmult_le_compat_l; [exact Hw |].
    apply sqrt_le_1_alt.
    unfold qsquaredNorm in Hq. pose proof (Rle_0_sqr (qw q)) as Hs.
    unfold Rsqr in Hs. lra.
  - intros a n Hn ->. rewrite Hform.
    unfold Quaternion_of_AngleAxis; cbn [qx qy qz angle axis].
    replace (8 * (sin (0.5 * a) * v0 n * (sin (0.5 * a) * v0 n)
                  + sin (0.5 * a) * v1 n * (sin (0.5 * a) * v1 n)
                  + sin (0.5 * a) * v2 n * (sin (0.5 * a) * v2 n)))
      with (8 * Rsqr (sin (0.5 * a))) by (unfold Rsqr; nsatz).
    rewrite sqrt_mult by (try apply Rle_0_sqr; lra).
    rewrite sqrt_Rsqr_abs. reflexivity.
Qed.

(** X13. Only the symmetric part of the position weight counts: a term
    whose position weight is replaced by one with the same [W + W^T] returns
    the same cost on every input. *)
Theorem X13_symmetric_part_of_the_weight :
  forall (this : TermTaskspacePose K) (W : Matrix3 R) (x u : list R) (t : R),
    symmetric_part W = symmetric_part (Q_pos_ this) ->
    evaluate FB (set_Q_pos W this) x u t = evaluate FB this x u t.
Proof.
  intros this W x u t Hs.
  unfold evaluate. rewrite !evalLocal_split.
  assert (pos_cost FB (set_Q_pos W this) x = pos_cost FB this x) as ->.
  { rewrite !pos_cost_quadratic_form.
    change (xDiff FB (set_Q_pos W this) x) with (xDiff FB this x).
    cbn [set_Q_pos Q_pos_].
    destruct (xDiff FB this x) as [e0 e1 e2].
    destruct W as [a b c d e f g h i], (Q_pos_ this) as [a' b' c' d' e' f' g' h' i'].
    unfold symmetric_part in Hs; cbn in Hs.
    injection Hs as S00 S01 S02 _ S11 S12 _ _ S22.
    unfold quadratic_form, rdot, rmul, vtranspose; cbn. nsatz. }
  reflexivity.
Qed.
End CostProperties.

(** * Further properties of the state vector *)

Section StateVectorProperties.
Context {K : Type} {kc : KinematicsClass K}.

(** X14. The [static_assert] on [STATE_DIM] tells the two kinds of robot
    apart: a dimension it accepts for a floating base it refuses for a
    fixed base with the same kinematics, and the other way round. A
    dimension it accepts leaves room for what the extraction reads: the six
    entries of the base pose and the joint positions for a floating base,
    the joint positions for a fixed base. *)
Theorem X14_state_dimension :
  forall n : nat,
    (STATE_DIM_appropriate true n = true ->
     STATE_DIM_appropriate false n = false /\ (6 + NJOINTS <= n)%nat)
    /\ (STATE_DIM_appropriate false n = true ->
        STATE_DIM_appropriate true n = false /\ (NJOINTS <= n)%nat).
Proof.
  intros n. unfold STATE_DIM_appropriate. split; intros Hd.
  - apply Bool.orb_true_iff in Hd. split.
    + apply Bool.orb_false_iff.
      destruct Hd as [Hd | Hd]; apply Nat.eqb_eq in Hd; subst n;
        split; apply Nat.eqb_neq; lia.
    + destruct Hd as [Hd | Hd]; apply Nat.eqb_eq in Hd; lia.
  - apply Bool.orb_true_iff in Hd. split.
    + apply Bool.orb_false_iff.
      destruct Hd as [Hd | Hd]; apply Nat.eqb_eq in Hd; subst n;
        split; apply Nat.eqb_neq; lia.
    + destruct Hd as [Hd | Hd]; apply Nat.eqb_eq in Hd; lia.
Qed.

Context {ADCG : Type} {sc : Scalar ADCG} {ko : KinematicsOps ADCG K}.

Lemma jointPositions_floating (x : list ADCG) :
  (6 + NJOINTS <= List.length x)%nat ->
  jointPositions NJOINTS (setStateFromVector (K := K) true x)
  = skipn 6 (firstn (6 + NJOINTS) x).
Proof.
  intros Hl.
  assert (List.length (segment 6 NJOINTS x) = NJOINTS) as Hs
    by (apply segment_length; lia).
  unfold setStateFromVector, jointPositions, fromStateVectorEulerXyz; cbn [joints].
  rewrite firstn_app, Hs, Nat.sub_diag, firstn_O, app_nil_r.
  rewrite <- Hs at 1. rewrite firstn_all.
  unfold segment. apply firstn_skipn_comm.
Qed.

Lemma basePose_floating (x : list ADCG) :
  basePose (setStateFromVector (K := K) true x)
  = RigidBodyPose_fromEulerXyz (firstn 6 (firstn (6 + NJOINTS) x)).
Proof.
  unfold setStateFromVector, fromStateVectorEulerXyz; cbn [basePose].
  rewrite firstn_firstn. replace (Nat.min 6 (6 + NJOINTS)) with 6%nat by lia.
  reflexivity.
Qed.

(** X15. The cost depends on the positions only. The control and the time
    are not used; for a fixed base two state vectors with the same first
    [NJOINTS] entries, for a floating base two state vectors with the same
    first [6 + NJOINTS] entries, cost the same, whatever the velocities
    that follow. *)
Theorem X15_cost_depends_on_positions_only :
  forall (this : TermTaskspacePose K) (x x' u u' : list ADCG) (t t' : ADCG),
    (firstn NJOINTS x = firstn NJOINTS x' ->
     evaluate false this x u t = evaluate false this x' u' t')
    /\ ((6 + NJOINTS <= List.length x)%nat ->
        (6 + NJOINTS <= List.length x')%nat ->
        firstn (6 + NJOINTS) x = firstn (6 + NJOINTS) x' ->
        evaluate true this x u t = evaluate true this x' u' t').
Proof.
  intros this x x' u u' t t'. split.
  - intros Hx. unfold evaluate, evalLocal.
    unfold setStateFromVector, set_joints, jointPositions; cbn [joints basePose].
    rewrite Hx. reflexivity.
  - intros Hl Hl' Hx. unfold evaluate, evalLocal.
    rewrite !jointPositions_floating by assumption.
    rewrite !basePose_floating, Hx. reflexivity.
Qed.
End StateVectorProperties.

(** * The further properties at work *)

Lemma orthonormal_Rz (a : R) : orthonormal (SpecFormula.Rz a).
Proof.
  pose proof (sin_cos_unit a) as Hs.
  unfold orthonormal, SpecFormula.Rz, mmul, transpose, Identity; cbn.
  split; f_equal; nra.
Qed.

(** X1 on a complete configuration, loaded with and without [verbose] and
    after different earlier outputs. *)
Lemma X1_verbose_has_no_influence_witness :
  this_ (fst (loadConfigFile (reader := reader_of_config config_quat_2)
                "term.info" "term0" true (mkMachine example_term [])))
  = this_ (fst (loadConfigFile (reader := reader_of_config config_quat_2)
                  "term.info" "term0" false
                  (mkMachine example_term [[out_text "earlier output"]])))
  /\ snd (loadConfigFile (reader := reader_of_config config_quat_2)
            "term.info" "term0" true (mkMachine example_term []))
     = snd (loadConfigFile (reader := reader_of_config config_quat_2)
              "term.info" "term0" false
              (mkMachine example_term [[out_text "earlier output"]])).
Proof.
  apply (X1_verbose_has_no_influence (K := Column)
           (reader := reader_of_config config_quat_2)).
  reflexivity.
Defined.

(** X3 on two different terms of the column, loaded from one configuration. *)
Lemma X3_load_overwrites_every_member_witness :
  snd (loadConfigFile (reader := reader_of_config config_quat_2)
         "term.info" "term0" false (mkMachine half_turn_term []))
  = inr tt
  /\ this_ (fst (loadConfigFile (reader := reader_of_config config_quat_2)
                   "term.info" "term0" true (mkMachine example_term [])))
     = this_ (fst (loadConfigFile (reader := reader_of_config config_quat_2)
                     "term.info" "term0" false (mkMachine half_turn_term []))).
Proof.
  apply (X3_load_overwrites_every_member (K := Column)
           (reader := reader_of_config config_quat_2)).
  - reflexivity.
  - rewrite (load_quat (reader := reader_of_config config_quat_2)
               "term.info" "term0" true _ 2%nat 0.5 Identity (mkVector3 0 0 1)
               eq_refl eq_refl eq_refl eq_refl (mkVector4 2 0 0 0) eq_refl).
    reflexivity.
Defined.

(** X5 on a configuration with Euler angles and on one with a quaternion of
    norm one. *)
Lemma X5_load_agrees_with_constructors_witness :
  snd (ctor_config (reader := reader_of_config config_euler) example_term []
         "term.info" "term0" false)
  = inr (ctor_euler 2 Identity 0.5 (mkVector3 0 0 1) (mkVector3 PI 0 0))
  /\ snd (ctor_config (reader := reader_of_config config_quat_unit) example_term []
            "term.info" "term0" false)
     = inr (ctor_quat 2 Identity 0.5 (mkVector3 0 0 1) (mkQuaternion 0 1 0 0)).
Proof.
  split.
  - destruct (X5_load_agrees_with_constructors (K := Column)
                (reader := reader_of_config config_euler)
                "term.info" "term0" false example_term [] 2%nat 0.5 Identity
                (mkVector3 0 0 1) eq_refl eq_refl eq_refl eq_refl) as (He & _).
    exact (He (no_such_node "quat_des") (mkVector3 PI 0 0) eq_refl eq_refl).
  - destruct (X5_load_agrees_with_constructors (K := Column)
                (reader := reader_of_config config_quat_unit)
                "term.info" "term0" false example_term [] 2%nat 0.5 Identity
                (mkVector3 0 0 1) eq_refl eq_refl eq_refl eq_refl) as (_ & Hq).
    apply (Hq (mkVector4 0 1 0 0) eq_refl).
    unfold qsquaredNorm; cbn. ring.
Defined.

(** X7 on the quaternion [(0, 2, 0, 0)]: what the loader stores is not a
    rotation. *)
Lemma X7_loaded_quaternion_rotation_witness :
  ~ orthonormal
      (w_R_ref_ (this_ (fst (loadConfigFile (reader := reader_of_config config_quat_x2)
                               "term.info" "term0" false
                               (mkMachine example_term []))))).
Proof.
  intros Ho.
  apply (X7_loaded_quaternion_rotation (K := Column)
           (reader := reader_of_config config_quat_x2)
           "term.info" "term0" false (mkMachine example_term [])
           2%nat 0.5 Identity (mkVector3 0 0 1) (mkVector4 0 2 0 0)
           eq_refl eq_refl eq_refl eq_refl eq_refl) in Ho.
  cbn in Ho. destruct Ho as [Ho | (Ho & _)]; lra.
Defined.

(** X8 on a half turn about X: the quaternion and minus twice it. *)
Lemma X8_quaternion_scale_witness :
  ctor_quat (K := Column) 2 Identity 0.5 (mkVector3 0 0 1)
    (qscale (-2) (mkQuaternion 0 1 0 0))
  = ctor_quat 2 Identity 0.5 (mkVector3 0 0 1) (mkQuaternion 0 1 0 0).
Proof.
  apply X8_quaternion_scale. lra.
Defined.

(** X10 on the column: the cost is 0 at height 1 and nowhere else. *)
Lemma X10_cost_zero_only_at_reference_witness :
  0 <= evaluate false example_term_matrix [1.1; 0] [] 0
  /\ (evaluate false example_term_matrix [1; 0] [] 0 = 0
      <-> ee_pos false example_term_matrix [1; 0] = w_p_ref_ example_term_matrix
          /\ ee_rot false example_term_matrix [1; 0] = w_R_ref_ example_term_matrix).
Proof.
  split.
  - destruct (X10_cost_zero_only_at_reference (K := Column) false
                example_term_matrix [1.1; 0] [] 0) as (Hn & _).
    apply Hn.
    + apply positive_definite_semidefinite, positive_definite_Identity.
    + cbn. lra.
  - destruct (X10_cost_zero_only_at_reference (K := Column) false
                example_term_matrix [1; 0] [] 0) as (_ & Hz).
    apply Hz.
    + apply positive_definite_Identity.
    + cbn. lra.
    + apply orthonormal_Identity.
Defined.

(** X11 on the turntable: a half turn away from the pose at rest costs what
    the pose at rest costs a term whose reference is the half turn. *)
Lemma X11_rot_cost_trace_witness :
  rot_cost (kc := Turntable_class) (ko := Turntable_ops) false turntable_term [PI; 0]
  = 0.5 * sqrt (6 - 2 * trace (mmul (transpose Identity) (SpecFormula.Rz PI)))
  /\ rot_cost (kc := Turntable_class) (ko := Turntable_ops) false
       turntable_term_turned [0; 0]
     = rot_cost (kc := Turntable_class) (ko := Turntable_ops) false
         turntable_term [PI; 0].
Proof.
  destruct (X11_rot_cost_trace (kc := Turntable_class) (ko := Turntable_ops) false
              turntable_term [PI; 0] orthonormal_Identity (orthonormal_Rz PI))
    as (Hf & Hs).
  split; [exact Hf |].
  apply Hs; [reflexivity | reflexivity |].
  unfold ee_rot, turntable_term; cbn.
  unfold SpecFormula.Rz, Identity. rewrite cos_0, sin_0. cbn. f_equal; lra.
Defined.

(** X12 on the turntable: the cost of a half turn. *)
Lemma X12_rot_cost_of_a_turn_witness :
  rot_cost (kc := Turntable_class) (ko := Turntable_ops) false turntable_term [PI; 0]
  = 0.5 * (sqrt 8 * Rabs (sin (0.5 * PI)))
  /\ rot_cost (kc := Turntable_class) (ko := Turntable_ops) false turntable_term [PI; 0]
     <= 0.5 * sqrt 8.
Proof.
  destruct (X12_rot_cost_of_a_turn (kc := Turntable_class) (ko := Turntable_ops) false
              turntable_term [PI; 0]
              (Quaternion_of_AngleAxis (mkAngleAxis PI UnitZ))
              orthonormal_Identity (AngleAxis_UnitZ_unit PI))
    as (_ & Hb & Ha).
  - rewrite toRotationMatrix_UnitZ. cbn [w_R_ref_ turntable_term].
    rewrite mmul_Identity_l. reflexivity.
  - split.
    + apply (Ha PI UnitZ); [cbn; lra | reflexivity].
    + apply Hb. cbn. lra.
Defined.

(** X13 on the column: a skewed weight with the symmetric part of the
    identity. *)
Lemma X13_symmetric_part_of_the_weight_witness :
  evaluate false (set_Q_pos skewed_weight example_term_matrix) [1.1; 0] [] 0
  = evaluate false example_term_matrix [1.1; 0] [] 0.
Proof.
  apply (X13_symmetric_part_of_the_weight (K := Column) false).
  unfold symmetric_part, skewed_weight, example_term_matrix, Identity; cbn.
  f_equal; lra.
Defined.

(** X14 on the column: 14 entries for a floating base, 2 for a fixed base. *)
Lemma X14_state_dimension_witness :
  (STATE_DIM_appropriate (kc := Column_class) false 14 = false /\ (6 + 1 <= 14)%nat)
  /\ (STATE_DIM_appropriate (kc := Column_class) true 2 = false /\ (1 <= 2)%nat).
Proof.
  split.
  - destruct (X14_state_dimension (kc := Column_class) 14) as (Hf & _).
    exact (Hf eq_refl).
  - destruct (X14_state_dimension (kc := Column_class) 2) as (_ & Hf).
    exact (Hf eq_refl).
Defined.

(** X15 on the column: another velocity, another control, another time. *)
Lemma X15_cost_depends_on_positions_only_witness :
  evaluate false example_term [1.1; 0] [] 0 = evaluate false example_term [1.1; 5] [7] 3
  /\ evaluate true example_term [0; 0; 0; 0; 0; 0; 1.1; 0; 0; 0; 0; 0; 0; 0] [] 0
     = evaluate true example_term [0; 0; 0; 0; 0; 0; 1.1; 1; 2; 3; 4; 5; 6; 7] [7] 3.
Proof.
  split.
  - destruct (X15_cost_depends_on_positions_only (K := Column) (ADCG := R)
                example_term [1.1; 0] [1.1; 5] [] [7] 0 3) as (Hfixed & _).
    apply Hfixed. reflexivity.
  - destruct (X15_cost_depends_on_positions_only (K := Column) (ADCG := R)
                example_term [0; 0; 0; 0; 0; 0; 1.1; 0; 0; 0; 0; 0; 0; 0]
                [0; 0; 0; 0; 0; 0; 1.1; 1; 2; 3; 4; 5; 6; 7] [] [7] 0 3)
      as (_ & Hfloating).
    apply Hfloating; [cbn; lia | cbn; lia | reflexivity].
Defined.
